(** * Shared audio playback coordinator: [audioManager] and [AudioPlayer]

    A shallow embedding of [src/components/ui/audio-player.tsx].

    The module-level singleton [audioManager] owns one [<audio>] element
    shared by every mounted [AudioPlayer].  Each player is a React function
    component: its props, its [useState] cells and its [useRef] cells are the
    fields of [Player]; its effects, their cleanup functions and its event
    handlers are monadic programs over the [World], which holds the
    singleton, the mounted players and the host's pending callbacks (timers,
    animation frames, play promises, event listeners).

    Host behaviour the source relies on and that is fixed here:
    - React runs the effects of a render in declaration order, reruns an
      effect when one of its dependencies changed, runs the cleanup of every
      rerun effect (closed over the previous render) before the new effects,
      and on unmount runs all cleanups in declaration order;
    - [audio.src] reads back what the host makes of the assigned string,
      [resolveUrl] (a browser resolves it against the page); on the sample
      pages the sources are absolute and read back unchanged;
    - [audio.play()] clears [paused] unless it throws; [audio.load()] resets
      the position and sets [paused]. *)

From Stdlib Require Import String ZArith Bool List Lia.
From stdpp Require Import base list.
Import ListNotations.
Local Open Scope string_scope.
Local Open Scope Z_scope.

(** ** Strings: [String.prototype.includes] *)

(** [includes pat s] is [s.includes(pat)]. *)
Fixpoint includes (pat s : string) : bool :=
  String.prefix pat s ||
  match s with
  | EmptyString => false
  | String _ s' => includes pat s'
  end.

(** JavaScript truthiness of a string. *)
Definition truthy (s : string) : bool := negb (String.eqb s "").

(** ** Data *)

(** The props of one render of [AudioPlayer].  [onPlayPause] is reached
    through [onPlayPauseRef] and is always the parent's latest function, so
    it is not part of a captured render; [onTimeUpdate] is optional. *)
Record Props := mkProps {
  src : string;
  isPlaying : bool;
  onTimeUpdate : bool;            (* was the optional callback supplied *)
  totalDurationSeconds : Z;       (* 0 when absent *)
  initialTime : Z
}.

(** A function value created during a render of player [c_owner]: it sees
    the props of that render. *)
Record Closure := mkClosure { c_owner : nat; c_props : Props }.

Inductive ListenerKind :=
  LError | LTimeUpdate | LEnded | LLoadedMetadata | LCanPlay.

Definition kind_eqb (a b : ListenerKind) : bool :=
  match a, b with
  | LError, LError | LTimeUpdate, LTimeUpdate | LEnded, LEnded
  | LLoadedMetadata, LLoadedMetadata | LCanPlay, LCanPlay => true
  | _, _ => false
  end.

Record Listener := mkListener {
  l_id : nat; l_kind : ListenerKind; l_fn : Closure
}.

(** What [audio.play()] does in the host. *)
Inductive PlayResult := ReturnsPromise | ReturnsUndefined | Throws.

(** The shared [HTMLAudioElement]. *)
Record Audio := mkAudio {
  a_src : string;
  a_paused : bool;
  a_currentTime : Z;
  a_duration : option Z;          (* None: NaN or infinite *)
  a_error : option string;        (* audio.error?.message *)
  a_volume : Z;
  a_muted : bool;
  a_listeners : list Listener;
  a_play : PlayResult
}.

Record Manager := mkManager {
  activeElement : option Audio;
  isInitialized : bool;
  activeSource : string;
  activePlayerCallback : option Closure
}.

Record Player := mkPlayer {
  props : Props;                  (* props of the last committed render *)
  mountProps : Props;             (* props seen by the [[]]-dependency effects *)
  mounted : bool;
  currentTime : Z;
  duration : Z;
  isMuted : bool;
  volume : Z;
  sourceChangedRef : bool;
  lastTimeUpdateRef : Z;
  listenerInitializedRef : bool;
  animationRef : option nat;
  audioRef : bool;                (* audioRef.current is the shared element *)
  isUpdatingSourceRef : bool;
  newCleanup : option (list nat)  (* listeners the setup effect will remove *)
}.

Inductive TimerAction :=
| ResetUpdating (pid : nat)                       (* updateAudioSource, 100ms *)
| CanPlayFallback (fn : Closure) (handler : nat). (* waitForCanPlay, 1000ms *)

Record Timer := mkTimer { t_id : nat; t_due : Z; t_action : TimerAction }.

(** What the component does to the outside, in order. *)
Inductive Effect :=
| EPause | EPlay | ELoad
| ESetSrc (s : string)
| ESetTime (t : Z)
| ECallback (cb : Closure) (arg : bool) (seen : string)
    (* the stored deactivation callback is called; [seen] is
       [audioManager.activeSource] at that moment *)
| EOnPlayPause (pid : nat)
| EOnTimeUpdate (pid : nat) (t : Z)
| EToastError (msg : string)
| EConsoleError
| ECancelFrame (id : nat)
| ETypeError.

Record World := mkWorld {
  audioManager : Manager;
  players : list Player;
  timers : list Timer;
  frames : list (nat * Closure);     (* requestAnimationFrame *)
  promises : list (nat * Closure);   (* pending play() promises with a catch *)
  docListeners : list Closure;       (* visibilitychange on document *)
  now : Z;                           (* Date.now() *)
  nextId : nat;
  trace : list Effect;
  resolveUrl : string -> string      (* what [audio.src] reads after a write *)
}.

(** ** Field updates *)

Definition set_a_src v (a : Audio) :=
  mkAudio v (a_paused a) (a_currentTime a) (a_duration a) (a_error a)
          (a_volume a) (a_muted a) (a_listeners a) (a_play a).
Definition set_a_paused v (a : Audio) :=
  mkAudio (a_src a) v (a_currentTime a) (a_duration a) (a_error a)
          (a_volume a) (a_muted a) (a_listeners a) (a_play a).
Definition set_a_currentTime v (a : Audio) :=
  mkAudio (a_src a) (a_paused a) v (a_duration a) (a_error a)
          (a_volume a) (a_muted a) (a_listeners a) (a_play a).
Definition set_a_volume v m (a : Audio) :=
  mkAudio (a_src a) (a_paused a) (a_currentTime a) (a_duration a) (a_error a)
          v m (a_listeners a) (a_play a).
Definition set_a_listeners v (a : Audio) :=
  mkAudio (a_src a) (a_paused a) (a_currentTime a) (a_duration a) (a_error a)
          (a_volume a) (a_muted a) v (a_play a).

Definition set_activeElement v (m : Manager) :=
  mkManager v (isInitialized m) (activeSource m) (activePlayerCallback m).
Definition set_isInitialized v (m : Manager) :=
  mkManager (activeElement m) v (activeSource m) (activePlayerCallback m).
Definition set_activeSource v (m : Manager) :=
  mkManager (activeElement m) (isInitialized m) v (activePlayerCallback m).
Definition set_activePlayerCallback v (m : Manager) :=
  mkManager (activeElement m) (isInitialized m) (activeSource m) v.

Definition set_props v (p : Player) :=
  mkPlayer v (mountProps p) (mounted p) (currentTime p) (duration p)
           (isMuted p) (volume p) (sourceChangedRef p) (lastTimeUpdateRef p)
           (listenerInitializedRef p) (animationRef p) (audioRef p)
           (isUpdatingSourceRef p) (newCleanup p).
Definition set_mounted v (p : Player) :=
  mkPlayer (props p) (mountProps p) v (currentTime p) (duration p)
           (isMuted p) (volume p) (sourceChangedRef p) (lastTimeUpdateRef p)
           (listenerInitializedRef p) (animationRef p) (audioRef p)
           (isUpdatingSourceRef p) (newCleanup p).
Definition set_currentTime v (p : Player) :=
  mkPlayer (props p) (mountProps p) (mounted p) v (duration p)
           (isMuted p) (volume p) (sourceChangedRef p) (lastTimeUpdateRef p)
           (listenerInitializedRef p) (animationRef p) (audioRef p)
           (isUpdatingSourceRef p) (newCleanup p).
Definition set_duration v (p : Player) :=
  mkPlayer (props p) (mountProps p) (mounted p) (currentTime p) v
           (isMuted p) (volume p) (sourceChangedRef p) (lastTimeUpdateRef p)
           (listenerInitializedRef p) (animationRef p) (audioRef p)
           (isUpdatingSourceRef p) (newCleanup p).
Definition set_isMuted v (p : Player) :=
  mkPlayer (props p) (mountProps p) (mounted p) (currentTime p) (duration p)
           v (volume p) (sourceChangedRef p) (lastTimeUpdateRef p)
           (listenerInitializedRef p) (animationRef p) (audioRef p)
           (isUpdatingSourceRef p) (newCleanup p).
Definition set_sourceChangedRef v (p : Player) :=
  mkPlayer (props p) (mountProps p) (mounted p) (currentTime p) (duration p)
           (isMuted p) (volume p) v (lastTimeUpdateRef p)
           (listenerInitializedRef p) (animationRef p) (audioRef p)
           (isUpdatingSourceRef p) (newCleanup p).
Definition set_lastTimeUpdateRef v (p : Player) :=
  mkPlayer (props p) (mountProps p) (mounted p) (currentTime p) (duration p)
           (isMuted p) (volume p) (sourceChangedRef p) v
           (listenerInitializedRef p) (animationRef p) (audioRef p)
           (isUpdatingSourceRef p) (newCleanup p).
Definition set_listenerInitializedRef v (p : Player) :=
  mkPlayer (props p) (mountProps p) (mounted p) (currentTime p) (duration p)
           (isMuted p) (volume p) (sourceChangedRef p) (lastTimeUpdateRef p)
           v (animationRef p) (audioRef p)
           (isUpdatingSourceRef p) (newCleanup p).
Definition set_animationRef v (p : Player) :=
  mkPlayer (props p) (mountProps p) (mounted p) (currentTime p) (duration p)
           (isMuted p) (volume p) (sourceChangedRef p) (lastTimeUpdateRef p)
           (listenerInitializedRef p) v (audioRef p)
           (isUpdatingSourceRef p) (newCleanup p).
Definition set_audioRef v (p : Player) :=
  mkPlayer (props p) (mountProps p) (mounted p) (currentTime p) (duration p)
           (isMuted p) (volume p) (sourceChangedRef p) (lastTimeUpdateRef p)
           (listenerInitializedRef p) (animationRef p) v
           (isUpdatingSourceRef p) (newCleanup p).
Definition set_isUpdatingSourceRef v (p : Player) :=
  mkPlayer (props p) (mountProps p) (mounted p) (currentTime p) (duration p)
           (isMuted p) (volume p) (sourceChangedRef p) (lastTimeUpdateRef p)
           (listenerInitializedRef p) (animationRef p) (audioRef p)
           v (newCleanup p).
Definition set_newCleanup v (p : Player) :=
  mkPlayer (props p) (mountProps p) (mounted p) (currentTime p) (duration p)
           (isMuted p) (volume p) (sourceChangedRef p) (lastTimeUpdateRef p)
           (listenerInitializedRef p) (animationRef p) (audioRef p)
           (isUpdatingSourceRef p) v.

Definition set_audioManager v (w : World) :=
  mkWorld v (players w) (timers w) (frames w) (promises w) (docListeners w)
          (now w) (nextId w) (trace w) (resolveUrl w).
Definition set_players v (w : World) :=
  mkWorld (audioManager w) v (timers w) (frames w) (promises w)
          (docListeners w) (now w) (nextId w) (trace w) (resolveUrl w).
Definition set_timers v (w : World) :=
  mkWorld (audioManager w) (players w) v (frames w) (promises w)
          (docListeners w) (now w) (nextId w) (trace w) (resolveUrl w).
Definition set_frames v (w : World) :=
  mkWorld (audioManager w) (players w) (timers w) v (promises w)
          (docListeners w) (now w) (nextId w) (trace w) (resolveUrl w).
Definition set_promises v (w : World) :=
  mkWorld (audioManager w) (players w) (timers w) (frames w) v
          (docListeners w) (now w) (nextId w) (trace w) (resolveUrl w).
Definition set_docListeners v (w : World) :=
  mkWorld (audioManager w) (players w) (timers w) (frames w) (promises w)
          v (now w) (nextId w) (trace w) (resolveUrl w).
Definition set_now v (w : World) :=
  mkWorld (audioManager w) (players w) (timers w) (frames w) (promises w)
          (docListeners w) v (nextId w) (trace w) (resolveUrl w).
Definition set_nextId v (w : World) :=
  mkWorld (audioManager w) (players w) (timers w) (frames w) (promises w)
          (docListeners w) (now w) v (trace w) (resolveUrl w).
Definition set_trace v (w : World) :=
  mkWorld (audioManager w) (players w) (timers w) (frames w) (promises w)
          (docListeners w) (now w) (nextId w) v (resolveUrl w).

(** ** The state monad of the component's code *)

Definition M (A : Type) : Type := World -> A * World.

Definition ret {A} (a : A) : M A := fun w => (a, w).
Definition bind {A B} (m : M A) (k : A -> M B) : M B :=
  fun w => let (a, w') := m w in k a w'.

Declare Scope m_scope.
Delimit Scope m_scope with M.
Notation "x <- c1 ;; c2" := (bind c1 (fun x => c2))
  (at level 100, c1 at next level, right associativity) : m_scope.
Notation "c1 ;; c2" := (bind c1 (fun _ => c2))
  (at level 100, right associativity) : m_scope.
Local Open Scope m_scope.

Definition get {A} (f : World -> A) : M A := fun w => (f w, w).
Definition modify (f : World -> World) : M unit := fun w => (tt, f w).
Definition when (b : bool) (c : M unit) : M unit := if b then c else ret tt.
Definition exec {A} (m : M A) (w : World) : World := snd (m w).

Fixpoint forM {A} (l : list A) (f : A -> M unit) : M unit :=
  match l with
  | [] => ret tt
  | x :: l' => f x ;; forM l' f
  end.

Definition emit (e : Effect) : M unit :=
  modify (fun w => set_trace (trace w ++ [e]) w).

Definition fresh : M nat :=
  fun w => (nextId w, set_nextId (S (nextId w)) w).

Definition modifyManager (f : Manager -> Manager) : M unit :=
  modify (fun w => set_audioManager (f (audioManager w)) w).

(** Writes to the element reached through a non-null reference. *)
Definition modifyAudio (f : Audio -> Audio) : M unit :=
  modifyManager (fun m => set_activeElement (f <$> activeElement m) m).

(** Reads of the element; the default is never used behind a null check. *)
Definition defaultAudio : Audio :=
  mkAudio "" true 0 None None 1 false [] ReturnsPromise.
Definition audioOf (w : World) : Audio :=
  default defaultAudio (activeElement (audioManager w)).
Definition readAudio {A} (f : Audio -> A) : M A := get (fun w => f (audioOf w)).

Definition defaultProps : Props := mkProps "" false false 0 0.
Definition defaultPlayer : Player :=
  mkPlayer defaultProps defaultProps false 0 0 false 1 false 0 false None
           false false None.
Definition playerOf (pid : nat) (w : World) : Player :=
  default defaultPlayer (players w !! pid).
Definition readRef {A} (pid : nat) (f : Player -> A) : M A :=
  get (fun w => f (playerOf pid w)).
Definition modifyPlayer (pid : nat) (f : Player -> Player) : M unit :=
  modify (fun w => set_players (alter f pid (players w)) w).

Definition isSome {A} (o : option A) : bool :=
  match o with Some _ => true | None => false end.

(** ** Host primitives *)

Definition audio_pause : M unit :=
  emit EPause ;; modifyAudio (set_a_paused true).

(** [audio.src = s]: the attribute is written, and the property then reads
    the URL the host resolves it to. *)
Definition audio_set_src (s : string) : M unit :=
  emit (ESetSrc s) ;;
  url <- get (fun w => resolveUrl w s) ;;
  modifyAudio (set_a_src url).

Definition audio_load : M unit :=
  emit ELoad ;;
  modifyAudio (fun a => set_a_paused true (set_a_currentTime 0 a)).

Definition audio_play : M PlayResult :=
  emit EPlay ;;
  r <- readAudio a_play ;;
  match r with
  | Throws => ret Throws
  | _ => modifyAudio (set_a_paused false) ;; ret r
  end.

Definition addEventListener (k : ListenerKind) (fn : Closure) : M nat :=
  id <- fresh ;;
  modifyAudio (fun a => set_a_listeners (a_listeners a ++ [mkListener id k fn]) a) ;;
  ret id.

Definition removeEventListener (id : nat) : M unit :=
  modifyAudio (fun a =>
    set_a_listeners
      (List.filter (fun l => negb (Nat.eqb (l_id l) id)) (a_listeners a)) a).

Definition setTimeout (delay : Z) (act : TimerAction) : M nat :=
  id <- fresh ;;
  t <- get now ;;
  modify (fun w => set_timers (timers w ++ [mkTimer id (t + delay) act]) w) ;;
  ret id.

Definition requestAnimationFrame (fn : Closure) : M nat :=
  id <- fresh ;;
  modify (fun w => set_frames (frames w ++ [(id, fn)]) w) ;;
  ret id.

Definition cancelAnimationFrame (id : nat) : M unit :=
  emit (ECancelFrame id) ;;
  modify (fun w =>
    set_frames (List.filter (fun f => negb (Nat.eqb (fst f) id)) (frames w)) w).

(** [onPlayPauseRef.current()]: the parent's toggle; what the parent does
    with it arrives later as a new render. *)
Definition onPlayPause (pid : nat) : M unit := emit (EOnPlayPause pid).

(** ** [audioManager] *)

Definition freshAudio : Audio :=
  mkAudio "" true 0 None None 1 false [] ReturnsPromise.

Definition initialize : M unit :=
  ini <- get (fun w => isInitialized (audioManager w)) ;;
  if ini then ret tt
  else
    modifyManager (set_activeElement (Some freshAudio)) ;;
    modifyManager (set_isInitialized true).

Definition getAudioElement : M bool :=
  ini <- get (fun w => isInitialized (audioManager w)) ;;
  when (negb ini) initialize ;;
  get (fun w => isSome (activeElement (audioManager w))).

(** The function every player registers:
    [(isActive) => { if (!isActive && isPlaying) onPlayPauseRef.current() }]. *)
Definition callCallback (cb : Closure) (isActive : bool) : M unit :=
  seen <- get (fun w => activeSource (audioManager w)) ;;
  emit (ECallback cb isActive seen) ;;
  when (negb isActive && isPlaying (c_props cb)) (onPlayPause (c_owner cb)).

Definition setActivePlayer (source : string) (callback : Closure) : M unit :=
  cur <- get (fun w => activeSource (audioManager w)) ;;
  cb <- get (fun w => activePlayerCallback (audioManager w)) ;;
  match cb with
  | Some f => when (negb (String.eqb cur source)) (callCallback f false)
  | None => ret tt
  end ;;
  modifyManager (set_activeSource source) ;;
  modifyManager (set_activePlayerCallback (Some callback)).

Definition cleanup : M unit :=
  el <- get (fun w => activeElement (audioManager w)) ;;
  when (isSome el) (audio_pause ;; audio_set_src "") ;;
  modifyManager (set_activeSource "") ;;
  modifyManager (set_activePlayerCallback None).

(** ** [AudioPlayer]: helper functions

    A helper defined inside the component closes over the render it was
    created in; that render is the [Closure] argument. *)

Definition updateAudioSource (pid : nat) (newSrc : string) : M unit :=
  audio <- getAudioElement ;;
  upd <- readRef pid isUpdatingSourceRef ;;
  if negb audio || upd then ret tt
  else
    cur <- readAudio a_src ;;
    when (negb (truthy cur) || negb (includes newSrc cur))
      (modifyPlayer pid (set_isUpdatingSourceRef true) ;;
       modifyPlayer pid (set_sourceChangedRef true) ;;
       audio_pause ;;
       audio_set_src "" ;;
       audio_load ;;
       audio_set_src newSrc ;;
       audio_load ;;
       _ <- setTimeout 100 (ResetUpdating pid) ;;
       ret tt).

Definition playAudio (fn : Closure) : M unit :=
  cur <- readAudio a_src ;;
  if negb (includes (src (c_props fn)) cur)
  then updateAudioSource (c_owner fn) (src (c_props fn))
  else
    paused <- readAudio a_paused ;;
    when paused
      (r <- audio_play ;;
       match r with
       | ReturnsPromise =>
           id <- fresh ;;
           modify (fun w => set_promises (promises w ++ [(id, fn)]) w)
       | ReturnsUndefined => ret tt
       | Throws => emit EConsoleError ;; onPlayPause (c_owner fn)
       end).

(** The [catch] handler attached to the play promise. *)
Definition playRejected (fn : Closure) (errorName : string) : M unit :=
  emit EConsoleError ;;
  when (String.eqb errorName "NotAllowedError")
    (onPlayPause (c_owner fn) ;;
     emit (EToastError "Please click play to start audio")).

Definition waitForCanPlay (fn : Closure) : M unit :=
  h <- addEventListener LCanPlay fn ;;
  _ <- setTimeout 1000 (CanPlayFallback fn h) ;;
  ret tt.

Definition canPlayHandler (self : nat) (fn : Closure) : M unit :=
  playAudio fn ;;
  modifyPlayer (c_owner fn) (set_sourceChangedRef false) ;;
  removeEventListener self.

Definition canPlayFallback (fn : Closure) (handler : nat) : M unit :=
  changed <- readRef (c_owner fn) sourceChangedRef ;;
  when changed
    (modifyPlayer (c_owner fn) (set_sourceChangedRef false) ;;
     playAudio fn ;;
     removeEventListener handler).

Definition handleError : M unit :=
  emit EConsoleError ;;
  err <- readAudio a_error ;;
  emit (EToastError
          ("Audio error: " ++
           match err with
           | Some m => if truthy m then m else "Unknown error"
           | None => "Unknown error"
           end)).

Definition timeUpdateThreshold : Z := 250.

Definition handleTimeUpdate (fn : Closure) : M unit :=
  t <- get now ;;
  last <- readRef (c_owner fn) lastTimeUpdateRef ;;
  when (timeUpdateThreshold <? t - last)
    (cur <- readAudio a_src ;;
     when (includes (src (c_props fn)) cur)
       (newTime <- readAudio a_currentTime ;;
        modifyPlayer (c_owner fn) (set_currentTime newTime) ;;
        when (onTimeUpdate (c_props fn))
          (emit (EOnTimeUpdate (c_owner fn) newTime))) ;;
     modifyPlayer (c_owner fn) (set_lastTimeUpdateRef t)).

Definition handleEnded (fn : Closure) : M unit :=
  cur <- readAudio a_src ;;
  when (includes (src (c_props fn)) cur)
    (modifyPlayer (c_owner fn) (set_currentTime 0) ;;
     when (onTimeUpdate (c_props fn)) (emit (EOnTimeUpdate (c_owner fn) 0)) ;;
     onPlayPause (c_owner fn)).

Definition handleLoadedMetadata (fn : Closure) : M unit :=
  cur <- readAudio a_src ;;
  d <- readAudio a_duration ;;
  match d with
  | Some d =>
      when (includes (src (c_props fn)) cur &&
            Z.eqb (totalDurationSeconds (c_props fn)) 0)
        (modifyPlayer (c_owner fn) (set_duration d))
  | None => ret tt
  end.

Definition setupAudioListeners (fn : Closure) : M (list nat) :=
  e <- addEventListener LError fn ;;
  t <- addEventListener LTimeUpdate fn ;;
  n <- addEventListener LEnded fn ;;
  m <- addEventListener LLoadedMetadata fn ;;
  ret [e; t; n; m].

Definition stopSliderUpdates (pid : nat) : M unit :=
  r <- readRef pid animationRef ;;
  match r with
  | Some id =>
      when (negb (Nat.eqb id 0))
        (cancelAnimationFrame id ;; modifyPlayer pid (set_animationRef None))
  | None => ret tt
  end.

Definition updateSlider (fn : Closure) : M unit :=
  audio <- readRef (c_owner fn) audioRef ;;
  paused <- readAudio a_paused ;;
  cur <- readAudio a_src ;;
  when (audio && negb paused && includes (src (c_props fn)) cur)
    (t <- readAudio a_currentTime ;;
     modifyPlayer (c_owner fn) (set_currentTime t) ;;
     when (onTimeUpdate (c_props fn)) (emit (EOnTimeUpdate (c_owner fn) t)) ;;
     id <- requestAnimationFrame fn ;;
     modifyPlayer (c_owner fn) (set_animationRef (Some id))).

Definition startSliderUpdates (fn : Closure) : M unit :=
  stopSliderUpdates (c_owner fn) ;;
  id <- requestAnimationFrame fn ;;
  modifyPlayer (c_owner fn) (set_animationRef (Some id)).

Definition handleSeek (pid : nat) (value : list Z) : M unit :=
  audio <- getAudioElement ;;
  if negb audio then ret tt
  else
    pr <- readRef pid props ;;
    cur <- readAudio a_src ;;
    when (includes (src pr) cur)
      match value with
      | newTime :: _ =>
          emit (ESetTime newTime) ;;
          modifyAudio (set_a_currentTime newTime) ;;
          modifyPlayer pid (set_currentTime newTime) ;;
          when (onTimeUpdate pr) (emit (EOnTimeUpdate pid newTime))
      | [] => emit ETypeError
      end.


(** ** [AudioPlayer]: effects, in declaration order *)

Definition activeIs (s : string) : M bool :=
  get (fun w => String.eqb (activeSource (audioManager w)) s).

Definition clearActive : M unit :=
  modifyManager (set_activeSource "") ;;
  modifyManager (set_activePlayerCallback None).

(** Registration effect, dependencies [[]]: only a cleanup. *)
Definition registrationCleanup (fn : Closure) : M unit :=
  act <- activeIs (src (c_props fn)) ;;
  when act clearActive.

(** Setup effect, dependencies [[]]. *)
Definition setupEffect (fn : Closure) : M unit :=
  audio <- getAudioElement ;;
  if negb audio then ret tt
  else
    modifyPlayer (c_owner fn) (set_audioRef true) ;;
    ini <- readRef (c_owner fn) listenerInitializedRef ;;
    when (negb ini)
      (ids <- setupAudioListeners fn ;;
       modifyPlayer (c_owner fn) (set_listenerInitializedRef true) ;;
       upd <- readRef (c_owner fn) isUpdatingSourceRef ;;
       when (isPlaying (c_props fn) && negb upd)
         (updateAudioSource (c_owner fn) (src (c_props fn))) ;;
       modifyPlayer (c_owner fn) (set_newCleanup (Some ids))).

Definition setupCleanup (fn : Closure) : M unit :=
  ids <- readRef (c_owner fn) newCleanup ;;
  match ids with
  | Some ids =>
      forM ids removeEventListener ;;
      act <- activeIs (src (c_props fn)) ;;
      when (isPlaying (c_props fn) && act) audio_pause
  | None => ret tt
  end.

(** Source effect, dependencies [[src, isPlaying]]. *)
Definition sourceEffect (fn : Closure) : M unit :=
  act <- activeIs (src (c_props fn)) ;;
  changed <- readRef (c_owner fn) sourceChangedRef ;;
  when ((isPlaying (c_props fn) && negb act) || changed)
    (updateAudioSource (c_owner fn) (src (c_props fn))).

(** The pause branch shared by both play/pause effects; the second one
    clears the coordinator without repeating the test. *)
Definition pauseBranch (fn : Closure) (recheck : bool) : M unit :=
  cur <- readAudio a_src ;;
  act <- activeIs (src (c_props fn)) ;;
  when (truthy cur && includes (src (c_props fn)) cur && act)
    (audio_pause ;;
     stopSliderUpdates (c_owner fn) ;;
     if recheck
     then (act' <- activeIs (src (c_props fn)) ;; when act' clearActive)
     else clearActive).

Definition playBranch (fn : Closure) : M unit :=
  setActivePlayer (src (c_props fn)) fn ;;
  changed <- readRef (c_owner fn) sourceChangedRef ;;
  (if changed then waitForCanPlay fn else playAudio fn) ;;
  startSliderUpdates fn.

(** First play/pause effect, dependencies [[isPlaying, src]]. *)
Definition playPauseEffect1 (fn : Closure) : M unit :=
  audio <- getAudioElement ;;
  if negb audio then ret tt
  else if isPlaying (c_props fn) then playBranch fn
  else pauseBranch fn true.

(** Volume effect, dependencies [[volume, isMuted]]. *)
Definition volumeEffect (pid : nat) : M unit :=
  audio <- getAudioElement ;;
  when audio
    (m <- readRef pid isMuted ;;
     v <- readRef pid volume ;;
     modifyAudio (set_a_volume (if m then 0 else v) m)).

(** Initial-time effect, dependencies [[initialTime, isPlaying, src]]. *)
Definition initialTimeEffect (fn : Closure) : M unit :=
  audio <- getAudioElement ;;
  cur <- readAudio a_src ;;
  when (audio && (0 <? initialTime (c_props fn)) && isPlaying (c_props fn) &&
        truthy cur && includes (src (c_props fn)) cur)
    (emit (ESetTime (initialTime (c_props fn))) ;;
     modifyAudio (set_a_currentTime (initialTime (c_props fn))) ;;
     modifyPlayer (c_owner fn) (set_currentTime (initialTime (c_props fn)))).

(** Duration effect, dependencies [[totalDurationSeconds]]. *)
Definition durationEffect (fn : Closure) : M unit :=
  when (negb (Z.eqb (totalDurationSeconds (c_props fn)) 0))
    (modifyPlayer (c_owner fn) (set_duration (totalDurationSeconds (c_props fn)))).

(** Unmount effect, dependencies [[src]]: only a cleanup. *)
Definition unmountCleanup (fn : Closure) : M unit :=
  act <- activeIs (src (c_props fn)) ;;
  when act
    (audio <- getAudioElement ;;
     when audio (audio_pause ;; onPlayPause (c_owner fn)) ;;
     clearActive) ;;
  stopSliderUpdates (c_owner fn).

(** Second play/pause effect, dependencies [[isPlaying, src]]. *)
Definition playPauseEffect2 (fn : Closure) : M unit :=
  audio <- getAudioElement ;;
  if negb audio then ret tt
  else if isPlaying (c_props fn)
  then playBranch fn ;; modifyManager (set_activeSource (src (c_props fn)))
  else pauseBranch fn false.

Definition playPauseCleanup2 (fn : Closure) : M unit :=
  act <- activeIs (src (c_props fn)) ;;
  when (isPlaying (c_props fn) && act) (stopSliderUpdates (c_owner fn)).

(** Visibility effect, dependencies [[isPlaying, src]]. *)
Definition visibilityEffect (fn : Closure) : M unit :=
  modify (fun w => set_docListeners (docListeners w ++ [fn]) w).

Definition visibilityCleanup (fn : Closure) : M unit :=
  modify (fun w =>
    set_docListeners
      (List.filter (fun g => negb (Nat.eqb (c_owner g) (c_owner fn)))
                   (docListeners w)) w).

Definition visibilityChangeHandler (hidden : bool) (fn : Closure) : M unit :=
  act <- activeIs (src (c_props fn)) ;;
  when (hidden && isPlaying (c_props fn) && act) (onPlayPause (c_owner fn)).

(** Animation effect, dependencies [[]]: only a cleanup. *)
Definition animationCleanup (pid : nat) : M unit := stopSliderUpdates pid.

(** ** React: mount, rerender, unmount *)

Definition newPlayer (pr : Props) (t : Z) : Player :=
  mkPlayer pr pr true (initialTime pr) (totalDurationSeconds pr) false 1
           false t false None false false None.

Definition mount (pr : Props) : M nat :=
  pid <- get (fun w => length (players w)) ;;
  t <- get now ;;
  modify (fun w => set_players (players w ++ [newPlayer pr t]) w) ;;
  let fn := mkClosure pid pr in
  setupEffect fn ;;
  sourceEffect fn ;;
  playPauseEffect1 fn ;;
  volumeEffect pid ;;
  initialTimeEffect fn ;;
  durationEffect fn ;;
  playPauseEffect2 fn ;;
  visibilityEffect fn ;;
  ret pid.

Definition render (pid : nat) (pr : Props) : M unit :=
  p <- get (playerOf pid) ;;
  when (mounted p)
    (let old := mkClosure pid (props p) in
     let fn := mkClosure pid pr in
     let dSrc := negb (String.eqb (src (props p)) (src pr)) in
     let dPlay := negb (Bool.eqb (isPlaying (props p)) (isPlaying pr)) in
     let dInit := negb (Z.eqb (initialTime (props p)) (initialTime pr)) in
     let dDur := negb (Z.eqb (totalDurationSeconds (props p))
                             (totalDurationSeconds pr)) in
     when dSrc (unmountCleanup old) ;;
     when (dPlay || dSrc) (playPauseCleanup2 old) ;;
     when (dPlay || dSrc) (visibilityCleanup old) ;;
     modifyPlayer pid (set_props pr) ;;
     when (dSrc || dPlay) (sourceEffect fn) ;;
     when (dPlay || dSrc) (playPauseEffect1 fn) ;;
     when (dInit || dPlay || dSrc) (initialTimeEffect fn) ;;
     when dDur (durationEffect fn) ;;
     when (dPlay || dSrc) (playPauseEffect2 fn) ;;
     when (dPlay || dSrc) (visibilityEffect fn)).

Definition unmount (pid : nat) : M unit :=
  p <- get (playerOf pid) ;;
  when (mounted p)
    (let fn := mkClosure pid (props p) in
     let fn0 := mkClosure pid (mountProps p) in
     registrationCleanup fn0 ;;
     setupCleanup fn0 ;;
     unmountCleanup fn ;;
     playPauseCleanup2 fn ;;
     visibilityCleanup fn ;;
     animationCleanup pid ;;
     modifyPlayer pid (set_mounted false)).

Definition toggleMute (pid : nat) : M unit :=
  p <- get (playerOf pid) ;;
  when (mounted p)
    (modifyPlayer pid (set_isMuted (negb (isMuted p))) ;; volumeEffect pid).

(** ** The host: event dispatch, timers, frames, promises *)

Definition runListener (l : Listener) : M unit :=
  match l_kind l with
  | LError => handleError
  | LTimeUpdate => handleTimeUpdate (l_fn l)
  | LEnded => handleEnded (l_fn l)
  | LLoadedMetadata => handleLoadedMetadata (l_fn l)
  | LCanPlay => canPlayHandler (l_id l) (l_fn l)
  end.

(** The element fires an event: the listeners registered at that moment run
    in registration order; one removed by an earlier listener is skipped. *)
Definition dispatch (k : ListenerKind) : M unit :=
  ls <- readAudio a_listeners ;;
  forM (List.filter (fun l => kind_eqb (l_kind l) k) ls)
    (fun l =>
       still <- readAudio (fun a =>
                  existsb (fun l' => Nat.eqb (l_id l') (l_id l)) (a_listeners a)) ;;
       when still (runListener l)).

Fixpoint earliest (ts : list Timer) : option Timer :=
  match ts with
  | [] => None
  | t :: ts' =>
      match earliest ts' with
      | Some u => if t_due u <? t_due t then Some u else Some t
      | None => Some t
      end
  end.

Definition runTimer (a : TimerAction) : M unit :=
  match a with
  | ResetUpdating pid => modifyPlayer pid (set_isUpdatingSourceRef false)
  | CanPlayFallback fn h => canPlayFallback fn h
  end.

(** The earliest pending timer fires; the clock is then at least its due
    time. *)
Definition fireTimer : M unit :=
  ts <- get timers ;;
  match earliest ts with
  | Some t =>
      modify (fun w =>
        set_timers
          (List.filter (fun u => negb (Nat.eqb (t_id u) (t_id t))) (timers w)) w) ;;
      modify (fun w => set_now (Z.max (now w) (t_due t)) w) ;;
      runTimer (t_action t)
  | None => ret tt
  end.

(** Time passes, but never beyond a timer that has not fired yet. *)
Definition advance (dt : Z) : M unit :=
  ts <- get timers ;;
  t <- get now ;;
  when ((0 <=? dt) && forallb (fun u => t + dt <=? t_due u) ts)
    (modify (set_now (t + dt))).

Definition animationFrame : M unit :=
  fs <- get frames ;;
  modify (set_frames []) ;;
  forM fs (fun f => updateSlider (snd f)).

Definition rejectPlay (id : nat) (errorName : string) : M unit :=
  ps <- get promises ;;
  match List.find (fun p => Nat.eqb (fst p) id) ps with
  | Some p =>
      modify (fun w =>
        set_promises
          (List.filter (fun q => negb (Nat.eqb (fst q) id)) (promises w)) w) ;;
      playRejected (snd p) errorName
  | None => ret tt
  end.

Definition visibilityChange (hidden : bool) : M unit :=
  ls <- get docListeners ;;
  forM ls (visibilityChangeHandler hidden).

(** Everything that can happen to the page. *)
Inductive Event :=
| Mount (pr : Props)
| Render (pid : nat) (pr : Props)
| Unmount (pid : nat)
| Seek (pid : nat) (value : list Z)
| ToggleMute (pid : nat)
| Dispatch (k : ListenerKind)
| FireTimer
| Advance (dt : Z)
| AnimationFrame
| RejectPlay (id : nat) (errorName : string)
| VisibilityChange (hidden : bool)
| ManagerCleanup
| HostPlay (r : PlayResult)       (* the host changes its playback policy *)
| HostProgress (t : Z).           (* playback moves the element's position *)

Definition step (e : Event) : M unit :=
  match e with
  | Mount pr => _ <- mount pr ;; ret tt
  | Render pid pr => render pid pr
  | Unmount pid => unmount pid
  | Seek pid value => handleSeek pid value
  | ToggleMute pid => toggleMute pid
  | Dispatch k => dispatch k
  | FireTimer => fireTimer
  | Advance dt => advance dt
  | AnimationFrame => animationFrame
  | RejectPlay id n => rejectPlay id n
  | VisibilityChange h => visibilityChange h
  | ManagerCleanup => cleanup
  | HostPlay r =>
      modifyAudio (fun a =>
        mkAudio (a_src a) (a_paused a) (a_currentTime a) (a_duration a)
                (a_error a) (a_volume a) (a_muted a) (a_listeners a) r)
  | HostProgress t => modifyAudio (set_a_currentTime t)
  end.

Definition run (es : list Event) : M unit := forM es step.

(** The page right after the module is loaded in a browser. *)
Definition emptyWorld : World :=
  mkWorld (mkManager None false "" None) [] [] [] [] [] 0 1 [] (fun s => s).
Definition initialWorld : World := exec initialize emptyWorld.

(** ** Observations *)

Definition isPlay (e : Effect) : bool :=
  match e with EPlay => true | _ => false end.
Definition isCallback (e : Effect) : bool :=
  match e with ECallback _ _ _ => true | _ => false end.
Definition count (f : Effect -> bool) (l : list Effect) : nat :=
  length (List.filter f l).

(** The trace produced by a program started in [w]. *)
Definition produced {A} (m : M A) (w : World) : list Effect :=
  drop (length (trace w)) (trace (exec m w)).

Definition rec1 : Props := mkProps "rec1" false true 0 0.
Definition rec2 : Props := mkProps "rec2" false true 0 0.
Definition playing (pr : Props) : Props :=
  mkProps (src pr) true (onTimeUpdate pr) (totalDurationSeconds pr) (initialTime pr).

(** ** Specification vocabulary *)

(** A postcondition [Q] holds after [m] from every world in [P]. *)
Definition hoare {A} (P : World -> Prop) (m : M A) (Q : A -> World -> Prop) : Prop :=
  forall w, P w -> Q (fst (m w)) (snd (m w)).

Definition preserves {A} (I : World -> Prop) (m : M A) : Prop :=
  hoare I m (fun _ => I).

(** The coordinator's active pair. *)
Definition pairOf (w : World) : string * option Closure :=
  (activeSource (audioManager w), activePlayerCallback (audioManager w)).


(** A mounted player is active when the coordinator's source is its own:
    the test [audioManager.activeSource === src] of its cleanups, its pause
    branches and its visibility handler. *)
Definition active (w : World) (pid : nat) : Prop :=
  mounted (playerOf pid w) = true /\
  activeSource (audioManager w) = src (props (playerOf pid w)).

(** The player whose deactivation callback the coordinator holds. *)
Definition registered (w : World) (pid : nat) : Prop :=
  exists cb, activePlayerCallback (audioManager w) = Some cb /\ c_owner cb = pid.


(** The page has its shared element. *)
Definition loaded (w : World) : Prop :=
  isInitialized (audioManager w) = true /\
  isSome (activeElement (audioManager w)) = true.







(** The trace has grown from [tr0] by effects that all satisfy [ok]. *)
Definition emits (ok : Effect -> bool) (tr0 : list Effect) (w : World) : Prop :=
  exists out, trace w = (tr0 ++ out)%list /\ forallb ok out = true.

Definition notCallback (e : Effect) : bool := negb (isCallback e).
Definition notCallbackNorPlay (e : Effect) : bool :=
  negb (isCallback e) && negb (isPlay e).

(** What calling the stored callback [old] with [false] looks like from
    outside, when the coordinator's source was [seen]. *)
Definition deactivation (old : Closure) (seen : string) : list Effect :=
  ECallback old false seen ::
  (if isPlaying (c_props old) then [EOnPlayPause (c_owner old)] else []).

(** The page stays loaded, the active pair satisfies [J], and the trace has
    grown from [tr0] by [ok] effects only. *)
Definition framed (J : string * option Closure -> Prop) (ok : Effect -> bool)
    (tr0 : list Effect) (w : World) : Prop :=
  loaded w /\ J (pairOf w) /\ emits ok tr0 w.

(** A property of the active pair alone. *)
Definition onPair (J : string * option Closure -> Prop) (w : World) : Prop :=
  J (pairOf w).

(** A page on which player 0 plays "rec1" and player 1 is mounted idle. *)
Definition handoff_world : World :=
  exec (run [Mount rec1; Mount rec2; Render 0%nat (playing rec1);
             Dispatch LCanPlay]) initialWorld.

(** Player 0 asked to play "rec1" 100ms ago and still waits for it to load;
    player 1 has just been asked to play "rec2" and is the active one. *)
Definition contested_world : World :=
  exec (run [Mount rec1; Mount rec2; Render 0%nat (playing rec1); FireTimer;
             Render 1%nat (playing rec2)]) initialWorld.

(** A single player, mounted idle, asked to play "rec1", and playing. *)
Definition playing_world : World :=
  exec (run [Mount rec1; Render 0%nat (playing rec1); Dispatch LCanPlay])
       initialWorld.

(** Both guards of the throttled [timeupdate] listener pass: more than
    [timeUpdateThreshold] ms since its last pass, and the element's source
    matches. *)
Definition forwards (fn : Closure) (w : World) : bool :=
  (timeUpdateThreshold <? now w - lastTimeUpdateRef (playerOf (c_owner fn) w)) &&
  includes (src (c_props fn)) (a_src (audioOf w)).

(** Since a reference moment: the clock has not gone back, player [pid]
    exists and its throttle timestamp has not gone back. *)
Definition later (pid : nat) (t0 last0 : Z) (w : World) : Prop :=
  t0 <= now w /\
  last0 <= lastTimeUpdateRef (playerOf pid w) /\
  (pid < length (players w))%nat.

(** [playing_world] one second later, the element at position 7. *)
Definition later_world : World :=
  exec (run [FireTimer; FireTimer; FireTimer; HostProgress 7]) playing_world.

Definition noCanPlay (ls : list Listener) : bool :=
  forallb (fun l => negb (kind_eqb (l_kind l) LCanPlay)) ls.

(** One wait is pending for the closure [fn]: its [canplay] handler [h] is
    the only [canplay] listener, the player's swap flag is set, and the
    element is paused with the player's source loaded. *)
Definition armed (fn : Closure) (h : nat) (w : World) : Prop :=
  exists a ls,
    activeElement (audioManager w) = Some a /\
    a_paused a = true /\
    includes (src (c_props fn)) (a_src a) = true /\
    a_listeners a = (ls ++ [mkListener h LCanPlay fn])%list /\
    noCanPlay ls = true /\
    sourceChangedRef (playerOf (c_owner fn) w) = true /\
    (c_owner fn < length (players w))%nat.

(** The wait is over: the flag is reset and no [canplay] listener is left. *)
Definition settled (fn : Closure) (w : World) : Prop :=
  sourceChangedRef (playerOf (c_owner fn) w) = false /\
  noCanPlay (a_listeners (audioOf w)) = true.

(** One idle player whose source has just been swapped into the element;
    the 100ms guard of the swap has expired. *)
Definition swapped_world : World :=
  exec (updateAudioSource 0 "rec1" ;; fireTimer)
       (exec (run [Mount rec1]) initialWorld).

(** A page where "rec1" plays and two more players are mounted idle, one
    with the source "rec", one with the empty source. *)
Definition guest_world : World :=
  exec (run [Mount (mkProps "rec" false true 0 0);
             Mount (mkProps "" false true 0 0)]) playing_world.

Definition notPlay (e : Effect) : bool := negb (isPlay e).

Definition isOnPlayPause (e : Effect) : bool :=
  match e with EOnPlayPause _ => true | _ => false end.

(** Events that are not a mount or a rerender. *)
Definition notRender (e : Event) : bool :=
  match e with Mount _ | Render _ _ => false | _ => true end.

(** Events through which the component may reach [audio.play()]: a mount or
    rerender, the element's [canplay], a timer. *)
Definition mayPlay (e : Event) : bool :=
  match e with
  | Mount _ | Render _ _ | Dispatch LCanPlay | FireTimer => true
  | _ => false
  end.

(** A mount or rerender that asks the player to play. *)
Definition asksToPlay (e : Event) : bool :=
  match e with
  | Mount pr | Render _ pr => isPlaying pr
  | _ => false
  end.

(** The shared state a player can disturb: the coordinator with its
    element, the host's pending callbacks and what has been said so far. *)
Definition sharedOf (w : World) :=
  (audioManager w, timers w, frames w, promises w, trace w).

(** Nothing shared has changed since [sh], and player [pid] has no source
    swap pending. *)
Definition undisturbed sh (pid : nat) (w : World) : Prop :=
  loaded w /\ sharedOf w = sh /\ sourceChangedRef (playerOf pid w) = false.

Definition isPause (e : Effect) : bool :=
  match e with EPause => true | _ => false end.

(** Effects that tell nobody anything and start nothing. *)
Definition silent (e : Effect) : bool :=
  negb (isCallback e) && negb (isOnPlayPause e) && negb (isPlay e).

(** The element is paused and the coordinator is free. *)
Definition released (w : World) : Prop :=
  loaded w /\ a_paused (audioOf w) = true /\ pairOf w = ("", None).

(** [handoff_world] after player 1 was asked to play "rec2" and its source
    became ready: player 0 still believes it is playing. *)
Definition takeover_world : World :=
  exec (run [Render 1%nat (playing rec2); Dispatch LCanPlay]) handoff_world.


(** What a player sees of the shared state: the active pair, the
    element's source and whether it is paused. *)
Definition viewOf (w : World) :=
  (pairOf w, a_src (audioOf w), a_paused (audioOf w)).

(** The cells of a player that its own effects read back. *)
Definition cellsOf (p : Player) := (sourceChangedRef p, isMuted p, volume p).

(** While player [pid] is being mounted: the page is loaded, the view is
    [view], the new player's cells are the initial ones, and only [ok]
    effects happened since [tr0]. *)
Definition mounting view (ok : Effect -> bool) (pid : nat) (tr0 : list Effect)
    (w : World) : Prop :=
  loaded w /\ viewOf w = view /\
  cellsOf (playerOf pid w) = (false, false, 1) /\
  emits ok tr0 w.

Definition nothing (e : Effect) : bool := false.

(** The listeners [setupAudioListeners] registers: all but the one-shot
    [canplay] handlers of [waitForCanPlay]. *)
Definition isSetupListener (l : Listener) : bool :=
  negb (kind_eqb (l_kind l) LCanPlay).
Definition setupListeners (w : World) : list Listener :=
  List.filter isSetupListener (a_listeners (audioOf w)).

(** The page is loaded and the registered setup listeners are [L]. *)
Definition listening (L : list Listener) (w : World) : Prop :=
  loaded w /\ setupListeners w = L.

(** A player asked to play "rec1" whose source is still loading. *)
Definition loading_world : World :=
  exec (run [Mount rec1; Render 0%nat (playing rec1)]) initialWorld.

(** The four listeners [setupAudioListeners] registers for the closure
    [fn] when the next free id is [n], and the ids its cleanup removes. *)
Definition fourListeners (n : nat) (fn : Closure) : list Listener :=
  [mkListener n LError fn; mkListener (S n) LTimeUpdate fn;
   mkListener (S (S n)) LEnded fn; mkListener (S (S (S n))) LLoadedMetadata fn].
Definition fourIds (n : nat) : list nat := [n; S n; S (S n); S (S (S n))].

(** Player [pid] is mounted, the setup listeners are [L], the document's
    listeners [D], and the cleanup of the player's setup effect removes [c]. *)
Definition registering (L : list Listener) (D : list Closure) (pid : nat)
    (c : option (list nat)) (w : World) : Prop :=
  listening L w /\ docListeners w = D /\
  (pid < length (players w))%nat /\
  mounted (playerOf pid w) = true /\ newCleanup (playerOf pid w) = c.

(** The same with all the element's listeners, for the way out. *)
Definition unregistering (L : list Listener) (D : list Closure) (pid : nat)
    (c : option (list nat)) (w : World) : Prop :=
  loaded w /\ a_listeners (audioOf w) = L /\ docListeners w = D /\
  (pid < length (players w))%nat /\ newCleanup (playerOf pid w) = c.

Definition keptBy (ids : list nat) (l : Listener) : bool :=
  negb (existsb (Nat.eqb (l_id l)) ids).

(** The [canplay] handlers registered on the element. *)
Definition isCanPlay (l : Listener) : bool := kind_eqb (l_kind l) LCanPlay.
Definition waits (w : World) : nat :=
  length (List.filter isCanPlay (a_listeners (audioOf w))).

(** [loading_world] after the source never became ready: the 100ms guard
    and both 1000ms fallback timers have fired. *)
Definition timed_out_world : World :=
  exec (run [Advance 100; FireTimer; Advance 900; FireTimer; FireTimer])
       loading_world.

(** * Proofs *)

(** ** Rules for [hoare] and [preserves] *)

Lemma hoare_bind {A B} P (m : M A) Q (k : A -> M B) R :
  hoare P m Q -> (forall a, hoare (Q a) (k a) R) -> hoare P (bind m k) R.
Proof.
  intros Hm Hk w Hw. unfold bind.
  specialize (Hm w Hw). destruct (m w) as [a w1]. exact (Hk a w1 Hm).
Qed.

Lemma hoare_weaken {A} (P P' : World -> Prop) (m : M A) (Q Q' : A -> World -> Prop) :
  hoare P' m Q' -> (forall w, P w -> P' w) -> (forall a w, Q' a w -> Q a w) ->
  hoare P m Q.
Proof. intros H HP HQ w Hw. apply HQ, H, HP, Hw. Qed.

Section Preserves.
Variable I : World -> Prop.

Lemma pres_bind {A B} (m : M A) (k : A -> M B) :
    preserves I m -> (forall a, preserves I (k a)) -> preserves I (bind m k).
  Proof. intros Hm Hk. eapply hoare_bind; [exact Hm | exact Hk]. Qed.

Lemma pres_ret {A} (a : A) : preserves I (ret a).
  Proof. intros w Hw. exact Hw. Qed.

Lemma pres_get {A} (f : World -> A) : preserves I (get f).
  Proof. intros w Hw. exact Hw. Qed.

Lemma pres_modify f : (forall w, I w -> I (f w)) -> preserves I (modify f).
  Proof. intros H w Hw. exact (H w Hw). Qed.

Lemma pres_fresh :
    (forall w, I w -> I (set_nextId (S (nextId w)) w)) -> preserves I fresh.
  Proof. intros H w Hw. exact (H w Hw). Qed.

Lemma pres_when b (c : M unit) : preserves I c -> preserves I (when b c).
  Proof. intros H. destruct b; [exact H | apply pres_ret]. Qed.

Lemma pres_forM {A} (l : list A) (f : A -> M unit) :
    (forall x, preserves I (f x)) -> preserves I (forM l f).
  Proof.
    intros H. induction l as [|x l IH]; simpl.
    - apply pres_ret.
    - apply pres_bind; [apply H | intros _; exact IH].
  Qed.
End Preserves.

(** Decompose a program down to its state updates; [special] answers for
    the functions that need an argument of their own, [leaf] for the
    updates. *)
Ltac head_of t :=
  lazymatch t with
  | ?f _ => head_of f
  | _ => t
  end.

Ltac pres_step special leaf :=
  first
    [ special
    | lazymatch goal with
      | |- preserves _ (bind _ _) => apply pres_bind; [ | intro ]
      | |- preserves _ (ret _) => apply pres_ret
      | |- preserves _ (get _) => apply pres_get
      | |- preserves _ (when _ _) => apply pres_when
      | |- preserves _ (forM _ _) => apply pres_forM; intro
      | |- preserves _ (modify _) => apply pres_modify; leaf
      | |- preserves _ fresh => apply pres_fresh; leaf
      | |- preserves _ (if ?b then _ else _) => destruct b
      | |- preserves _ (match ?x with _ => _ end) => destruct x
      | |- preserves _ ?m => let h := head_of m in unfold h; cbv zeta
      end ].

Ltac pres special leaf := repeat pres_step special leaf.

(** ** Programs that leave the active pair alone *)

Ltac frame_leaf := let w := fresh "w" in let H := fresh "H" in
  intros w H; exact H.
Ltac no_special := fail.

Section PairFrame.
Variable J : string * option Closure -> Prop.
End PairFrame.

Section PairFrameMore.
Variable J : string * option Closure -> Prop.
Lemma playAudio_pair fn : preserves (onPair J) (playAudio fn).
  Proof. pres no_special frame_leaf. Qed.

Lemma playRejected_pair fn n : preserves (onPair J) (playRejected fn n).
  Proof. pres no_special frame_leaf. Qed.

Lemma handleError_pair : preserves (onPair J) handleError.
  Proof. pres no_special frame_leaf. Qed.





Lemma dispatch_pair k : preserves (onPair J) (dispatch k).
  Proof. pres no_special frame_leaf. Qed.








End PairFrameMore.

(** ** The active pair *)

Lemma setActivePlayer_pair s cb :
  hoare (fun _ => True) (setActivePlayer s cb) (fun _ w => pairOf w = (s, Some cb)).
Proof.
  intros w _.
  cbv [setActivePlayer bind get when callCallback emit onPlayPause modify
       modifyManager ret].
  destruct (activePlayerCallback (audioManager w)) as [f|]; simpl;
    repeat (match goal with |- context [if ?b then _ else _] => destruct b end;
            simpl); reflexivity.
Qed.













Lemma exec_bind {A B} (m : M A) (k : A -> M B) w :
  exec (bind m k) w = exec (k (fst (m w))) (snd (m w)).
Proof. unfold exec, bind. destruct (m w); reflexivity. Qed.





(** ** Traces *)

Lemma produced_emits {A} (m : M A) w out :
  trace (exec m w) = (trace w ++ out)%list -> produced m w = out.
Proof. unfold produced. intros ->. apply drop_app_length. Qed.

Lemma hoare_at {A} (m : M A) (Q : A -> World -> Prop) w :
  hoare (fun w' => w' = w) m Q -> Q (fst (m w)) (snd (m w)).
Proof. intros H. apply H. reflexivity. Qed.

Lemma hoare_exists {A X} (P : X -> World -> Prop) (m : M A) Q :
  (forall x, hoare (P x) m Q) -> hoare (fun w => exists x, P x w) m Q.
Proof. intros H w [x Hx]. exact (H x w Hx). Qed.

Lemma loaded_modifyAudio f w :
  loaded w ->
  loaded (set_audioManager
            (set_activeElement (f <$> activeElement (audioManager w))
                               (audioManager w)) w).
Proof.
  intros [Hi Hs]. split; simpl; [exact Hi | ].
  destruct (activeElement (audioManager w)); [reflexivity | discriminate].
Qed.

Ltac framed_leaf :=
  let w := fresh "w" in
  let Hl := fresh "Hl" in let HJ := fresh "HJ" in
  let out := fresh "out" in let Ht := fresh "Ht" in let Hok := fresh "Hok" in
  intros w (Hl & HJ & out & Ht & Hok);
  split; [ first [ exact Hl | apply loaded_modifyAudio; exact Hl
                 | destruct Hl; split; [reflexivity | assumption]
                 | destruct Hl; split; [assumption | reflexivity] ] | ];
  split; [ exact HJ | ];
  first [ exists out; split; [exact Ht | exact Hok]
        | eexists (out ++ [_])%list; split;
          [ simpl; rewrite Ht; rewrite <- List.app_assoc; reflexivity
          | rewrite forallb_app, Hok; reflexivity ] ].

Lemma setActivePlayer_trace w s cb :
  trace (exec (setActivePlayer s cb) w) =
  (trace w ++
   match activePlayerCallback (audioManager w) with
   | Some old =>
       if String.eqb (activeSource (audioManager w)) s then []
       else deactivation old (activeSource (audioManager w))
   | None => []
   end)%list.
Proof.
  cbv [exec setActivePlayer bind get when callCallback emit onPlayPause modify
       modifyManager ret deactivation].
  destruct (activePlayerCallback (audioManager w)) as [f|]; simpl;
    [ | now rewrite app_nil_r ].
  destruct (String.eqb _ s); simpl; [ now rewrite app_nil_r | ].
  destruct (isPlaying (c_props f)); simpl;
    rewrite <- ?List.app_assoc; reflexivity.
Qed.

Lemma setActivePlayer_loaded w s cb :
  loaded w -> loaded (exec (setActivePlayer s cb) w).
Proof.
  cbv [exec setActivePlayer bind get when callCallback emit onPlayPause modify
       modifyManager ret].
  intros Hl.
  destruct (activePlayerCallback (audioManager w)) as [f|]; simpl;
    repeat (match goal with |- context [if ?b then _ else _] => destruct b end;
            simpl); exact Hl.
Qed.

(** Re-registering the active source calls nobody. *)
Lemma setActivePlayer_same s cb ok tr0 :
  preserves (framed (fun p => p = (s, Some cb)) ok tr0) (setActivePlayer s cb).
Proof.
  intros w (Hl & HJ & out & Ht & Hok).
  change (snd (setActivePlayer s cb w)) with (exec (setActivePlayer s cb) w).
  split; [ apply setActivePlayer_loaded, Hl | ].
  split; [ apply (setActivePlayer_pair s cb w Logic.I) | ].
  exists out. split; [ | exact Hok ].
  rewrite setActivePlayer_trace.
  unfold pairOf in HJ. injection HJ as H1 H2.
  rewrite H2, H1, String.eqb_refl, app_nil_r. exact Ht.
Qed.

Lemma set_activeSource_same s cb ok tr0 :
  preserves (framed (fun p => p = (s, Some cb)) ok tr0)
            (modifyManager (set_activeSource s)).
Proof.
  intros w (Hl & HJ & Hem). split; [exact Hl | ]. split; [ | exact Hem ].
  unfold pairOf in *. simpl. injection HJ as H1 H2. now rewrite H2.
Qed.

(** The handoff itself, started with the trace at [tr0 ++ pre]. *)
Lemma setActivePlayer_handoff_framed s cb old seen tr0 pre :
  seen <> s ->
  hoare (fun w => loaded w /\ pairOf w = (seen, Some old) /\
                  trace w = (tr0 ++ pre)%list)
        (setActivePlayer s cb)
        (fun _ => framed (fun p => p = (s, Some cb)) notCallback
                         (tr0 ++ pre ++ deactivation old seen)).
Proof.
  intros Hne w (Hl & HJ & Ht).
  change (snd (setActivePlayer s cb w)) with (exec (setActivePlayer s cb) w).
  split; [ apply setActivePlayer_loaded, Hl | ].
  split; [ apply (setActivePlayer_pair s cb w Logic.I) | ].
  exists []. split; [ | reflexivity ].
  rewrite setActivePlayer_trace.
  unfold pairOf in HJ. injection HJ as H1 H2. rewrite H2, H1.
  apply String.eqb_neq in Hne. rewrite Hne, Ht, app_nil_r.
  now rewrite <- List.app_assoc.
Qed.

Ltac handoff_special :=
  idtac; lazymatch goal with
  | |- preserves _ (setActivePlayer _ _) => apply setActivePlayer_same
  | |- preserves _ (modifyManager (set_activeSource _)) =>
      apply set_activeSource_same
  end.

Lemma hoare_run {A} (P : World -> Prop) (m : M A) (Q : A -> World -> Prop) w :
  P w -> hoare P m Q -> Q (fst (m w)) (snd (m w)).
Proof. intros HP H. exact (H w HP). Qed.

Lemma hoare_pure {A} (phi : Prop) (P : World -> Prop) (m : M A) Q :
  (phi -> hoare P m Q) -> hoare (fun w => phi /\ P w) m Q.
Proof. intros H w [Hphi Hw]. exact (H Hphi w Hw). Qed.

Lemma getAudioElement_loaded (P : World -> Prop) :
  (forall w, P w -> loaded w) ->
  hoare P getAudioElement (fun a w => a = true /\ P w).
Proof.
  intros HP w Hw. destruct (HP w Hw) as [Hi Hs].
  cbv [getAudioElement bind get when initialize ret]. rewrite Hi. simpl.
  repeat split; assumption.
Qed.

(** Keep the current assertion across the first statement. *)
Ltac keep :=
  lazymatch goal with
  | |- hoare ?P (bind ?m _) _ =>
      apply hoare_bind with (Q := fun _ => P);
      [ change (preserves P m) | intros ? ]
  end.

Lemma render_play_handoff w pid pr old :
  loaded w ->
  mounted (playerOf pid w) = true ->
  src (props (playerOf pid w)) = src pr ->
  isPlaying (props (playerOf pid w)) = false ->
  isPlaying pr = true ->
  activePlayerCallback (audioManager w) = Some old ->
  activeSource (audioManager w) <> src pr ->
  exists pre post,
    produced (render pid pr) w =
      (pre ++ deactivation old (activeSource (audioManager w)) ++ post)%list /\
    forallb notCallbackNorPlay pre = true /\
    forallb notCallback post = true.
Proof.
  intros Hl Hm Hsrc Hold Hnew Hcb Hne.
  set (seen := activeSource (audioManager w)) in *.
  set (fn := mkClosure pid pr).
  assert (H : exists pre,
             forallb notCallbackNorPlay pre = true /\
             framed (fun p => p = (src pr, Some fn)) notCallback
                    (trace w ++ pre ++ deactivation old seen)
                    (exec (render pid pr) w)).
  { unfold exec, render. unfold bind at 1. unfold get at 1.
    rewrite Hm, Hsrc, String.eqb_refl, Hold, Hnew. cbn [negb Bool.eqb orb when].
    apply hoare_run with
      (P := framed (fun p => p = (seen, Some old)) notCallbackNorPlay (trace w))
      (Q := fun _ w' => exists pre, forallb notCallbackNorPlay pre = true /\
                 framed (fun p => p = (src pr, Some fn)) notCallback
                        (trace w ++ pre ++ deactivation old seen) w').
    { split; [exact Hl | split].
      - unfold pairOf. now rewrite Hcb.
      - exists []. split; [now rewrite app_nil_r | reflexivity]. }
    do 5 (keep; [ solve [pres no_special framed_leaf] | ]).
    apply hoare_bind with
      (Q := fun _ w' => exists pre, forallb notCallbackNorPlay pre = true /\
                 framed (fun p => p = (src pr, Some fn)) notCallback
                        (trace w ++ pre ++ deactivation old seen) w').
    - (* the first play/pause effect hands over *)
      unfold playPauseEffect1.
      eapply hoare_bind;
        [ apply getAudioElement_loaded; intros w' Hw'; exact (proj1 Hw') | ].
      intros [|]; [ | intros w' [Habs _]; discriminate ].
      cbn [negb c_props]. rewrite Hnew. unfold playBranch.
      apply hoare_pure; intros _.
      eapply hoare_weaken with
        (P' := fun w' => exists pre, forallb notCallbackNorPlay pre = true /\
                 (loaded w' /\ pairOf w' = (seen, Some old) /\
                  trace w' = (trace w ++ pre)%list));
        [ | intros w' (Hl' & HJ' & out & Ht & Hok); exists out; auto
          | intros r w' Hq; exact Hq ].
      apply hoare_exists; intros pre. apply hoare_pure; intros Hpre.
      eapply hoare_weaken with
        (Q' := fun _ => framed (fun p => p = (src pr, Some fn)) notCallback
                               (trace w ++ pre ++ deactivation old seen));
        [ | intros w' Hw'; exact Hw'
          | intros r w' Hq; cbv beta; exists pre; split; [exact Hpre | exact Hq] ].
      eapply hoare_bind;
        [ apply (setActivePlayer_handoff_framed (src pr) fn old seen (trace w) pre Hne)
        | intros u ].
      change (preserves (framed (fun p => p = (src pr, Some fn)) notCallback
                                (trace w ++ pre ++ deactivation old seen))
                (changed <- readRef (c_owner fn) sourceChangedRef;;
                 (if changed then waitForCanPlay fn else playAudio fn);;
                 startSliderUpdates fn)).
      pres no_special framed_leaf.
    - subst fn.
      intros u. apply hoare_exists; intros pre. apply hoare_pure; intros Hpre.
      eapply hoare_weaken with
        (Q' := fun _ => framed (fun p => p = (src pr, Some (mkClosure pid pr))) notCallback
                               (trace w ++ pre ++ deactivation old seen));
        [ | intros w' Hw'; exact Hw'
          | intros r w' Hq; cbv beta; exists pre; split; [exact Hpre | exact Hq] ].
      change (preserves (framed (fun p => p = (src pr, Some (mkClosure pid pr))) notCallback
                                (trace w ++ pre ++ deactivation old seen))
                (when (negb (initialTime (props (playerOf pid w)) =? initialTime pr)
                       || true || false) (initialTimeEffect (mkClosure pid pr));;
                 when (negb (totalDurationSeconds (props (playerOf pid w)) =?
                             totalDurationSeconds pr))
                   (durationEffect (mkClosure pid pr));;
                 playPauseEffect2 (mkClosure pid pr);;
                 visibilityEffect (mkClosure pid pr))).
      unfold playPauseEffect2 at 1. cbn [c_props]. rewrite Hnew.
      unfold playBranch.
      pres handoff_special framed_leaf. }
  destruct H as (pre & Hpre & _ & _ & post & Ht & Hpost).
  exists pre, post. split; [ | split; assumption ].
  apply produced_emits. rewrite Ht. now rewrite <- !List.app_assoc.
Qed.

Lemma count_none f l : forallb (fun e => negb (f e)) l = true -> count f l = 0%nat.
Proof.
  unfold count. induction l as [|e l IH]; simpl; [reflexivity | ].
  destruct (f e); simpl; [discriminate | exact IH].
Qed.

Lemma count_deactivation old seen : count isCallback (deactivation old seen) = 1%nat.
Proof. unfold deactivation. destruct (isPlaying (c_props old)); reflexivity. Qed.

Lemma notCallbackNorPlay_counts l :
  forallb notCallbackNorPlay l = true ->
  count isCallback l = 0%nat /\ count isPlay l = 0%nat.
Proof.
  unfold count. induction l as [|e l IH]; simpl; [split; reflexivity | ].
  unfold notCallbackNorPlay at 1.
  destruct (isCallback e), (isPlay e); simpl; try discriminate. exact IH.
Qed.

(** C2.  With a deactivation callback [old] stored: [setActivePlayer] for
    another source calls [old] exactly once, with [false], while the
    coordinator still holds the old source, and then installs the new pair;
    [setActivePlayer] for the active source calls nobody.  In the render in
    which a mounted idle player [pid] is asked to play another source, that
    single call comes before every [play()] of the render, and no other
    callback is called. *)
Theorem setActivePlayer_deactivates_once
    (w : World) (source : string) (callback old : Closure) :
  activePlayerCallback (audioManager w) = Some old ->
  (activeSource (audioManager w) <> source ->
     produced (setActivePlayer source callback) w =
       ECallback old false (activeSource (audioManager w)) ::
       (if isPlaying (c_props old) then [EOnPlayPause (c_owner old)] else []) /\
     count isCallback (produced (setActivePlayer source callback) w) = 1%nat /\
     pairOf (exec (setActivePlayer source callback) w) = (source, Some callback)) /\
  (activeSource (audioManager w) = source ->
     produced (setActivePlayer source callback) w = [] /\
     pairOf (exec (setActivePlayer source callback) w) = (source, Some callback)) /\
  (forall pid pr,
     loaded w ->
     mounted (playerOf pid w) = true ->
     src (props (playerOf pid w)) = src pr ->
     isPlaying (props (playerOf pid w)) = false ->
     isPlaying pr = true ->
     activeSource (audioManager w) <> src pr ->
     exists pre post,
       produced (render pid pr) w =
         (pre ++ ECallback old false (activeSource (audioManager w)) ::
                 (if isPlaying (c_props old) then [EOnPlayPause (c_owner old)]
                  else []) ++ post)%list /\
       count isCallback pre = 0%nat /\ count isPlay pre = 0%nat /\
       count isCallback post = 0%nat).
Proof.
  intros Hcb. split; [ | split ].
  - intros Hne.
    assert (Hp : produced (setActivePlayer source callback) w =
                 deactivation old (activeSource (audioManager w))).
    { apply produced_emits. rewrite setActivePlayer_trace, Hcb.
      apply String.eqb_neq in Hne. now rewrite Hne. }
    split; [exact Hp | split].
    + rewrite Hp. apply count_deactivation.
    + apply (setActivePlayer_pair source callback w Logic.I).
  - intros He. split.
    + apply produced_emits. rewrite setActivePlayer_trace, Hcb.
      apply String.eqb_eq in He. now rewrite He, app_nil_r.
    + apply (setActivePlayer_pair source callback w Logic.I).
  - intros pid pr Hl Hm Hsrc Hold Hnew Hne.
    destruct (render_play_handoff w pid pr old Hl Hm Hsrc Hold Hnew Hcb Hne)
      as (pre & post & Hp & Hpre & Hpost).
    exists pre, post. split; [exact Hp | ].
    destruct (notCallbackNorPlay_counts pre Hpre) as [H1 H2].
    repeat split; try assumption.
    apply count_none. exact Hpost.
Qed.

Lemma setActivePlayer_deactivates_once_witness :
  let old := mkClosure 0 (playing rec1) in
  let cb := mkClosure 1 (playing rec2) in
  activePlayerCallback (audioManager handoff_world) = Some old /\
  produced (setActivePlayer "rec2" cb) handoff_world =
    [ECallback old false "rec1"; EOnPlayPause 0] /\
  produced (setActivePlayer "rec1" cb) handoff_world = [] /\
  exists pre post,
    produced (render 1 (playing rec2)) handoff_world =
      (pre ++ ECallback old false "rec1" :: [EOnPlayPause 0] ++ post)%list /\
    count isCallback pre = 0%nat /\ count isPlay pre = 0%nat /\
    count isCallback post = 0%nat.
Proof.
  intros old cb.
  assert (H0 : activePlayerCallback (audioManager handoff_world) = Some old)
    by reflexivity.
  pose proof (setActivePlayer_deactivates_once handoff_world "rec2" cb old H0)
    as (H1 & _ & H3).
  pose proof (setActivePlayer_deactivates_once handoff_world "rec1" cb old H0)
    as (_ & H2 & _).
  split; [exact H0 | split; [ | split ] ].
  - apply H1. vm_compute. discriminate.
  - apply H2. reflexivity.
  - apply (H3 1%nat (playing rec2)); try reflexivity.
    + split; reflexivity.
    + vm_compute. discriminate.
Defined.

(** ** Pause requests *)

(** The pause branch of either play/pause effect does nothing for a player
    whose source is not the active one. *)
Lemma pauseBranch_inactive fn recheck w :
  activeSource (audioManager w) <> src (c_props fn) ->
  pauseBranch fn recheck w = (tt, w).
Proof.
  intros Hne. apply String.eqb_neq in Hne.
  cbv [pauseBranch bind readAudio get activeIs when ret].
  rewrite Hne, andb_false_r. reflexivity.
Qed.

(** C3, the code at the failing input.  Player 0 is not the active source
    and is asked to pause while its own source swap is still pending; the
    source effect reloads "rec1" into the shared element, which had "rec2"
    loaded for the active player 1. *)
Theorem pause_of_inactive_player_reloads_element :
  let w := contested_world in
  let w' := exec (render 0 rec1) w in
  (activeSource (audioManager w) = "rec2" /\
   src (props (playerOf 0 w)) = "rec1" /\
   isPlaying (props (playerOf 0 w)) = true /\
   sourceChangedRef (playerOf 0 w) = true /\
   a_src (audioOf w) = "rec2") /\
  produced (render 0 rec1) w = [EPause; ESetSrc ""; ELoad; ESetSrc "rec1"; ELoad] /\
  a_src (audioOf w') = "rec1" /\
  activeSource (audioManager w') = "rec2".
Proof. vm_compute. repeat split. Qed.

(** ** Unmount *)

(** The unmount effect's cleanup, run on its own for the active player,
    pauses, signals the parent and releases the coordinator. *)
Lemma unmountCleanup_active fn w :
  loaded w ->
  activeSource (audioManager w) = src (c_props fn) ->
  exists post,
    produced (unmountCleanup fn) w = (EPause :: EOnPlayPause (c_owner fn) :: post)%list /\
    a_paused (audioOf (exec (unmountCleanup fn) w)) = true /\
    pairOf (exec (unmountCleanup fn) w) = ("", None).
Proof.
  intros [Hi Hs] Ha.
  destruct w as [[el ini as_ cb] ps ts fs prs dl t n tr rs]. simpl in *. subst.
  destruct el as [a|]; [ | discriminate ].
  cbv [unmountCleanup exec produced bind activeIs get when getAudioElement
       initialize ret audio_pause emit modify modifyAudio modifyManager
       onPlayPause clearActive stopSliderUpdates readRef
       cancelAnimationFrame modifyPlayer].
  simpl. rewrite String.eqb_refl. simpl.
  destruct (animationRef _) as [[|id]|]; simpl;
    rewrite <- ?List.app_assoc; simpl; rewrite drop_app_length;
    eexists; repeat split.
Qed.

(** C4, the code at the failing input.  The only player is active and
    playing; on unmount the registration cleanup, which runs first, clears
    the coordinator, so the unmount cleanup no longer finds itself active:
    nothing pauses the element and the parent is not told.  The coordinator
    is cleared and the animation frame cancelled. *)
Theorem unmount_of_active_player_keeps_playing :
  let w := playing_world in
  let w' := exec (unmount 0) w in
  (activeSource (audioManager w) = "rec1" /\ registered w 0 /\ active w 0 /\
   a_paused (audioOf w) = false /\ frames w <> []) /\
  produced (unmount 0) w = [ECancelFrame 11] /\
  a_paused (audioOf w') = false /\
  pairOf w' = ("", None) /\
  frames w' = [] /\
  animationRef (playerOf 0 w') = None.
Proof.
  vm_compute. repeat split; try discriminate.
  eexists. split; reflexivity.
Qed.

(** ** Player cells *)

Lemma lookup_alter_player f pid q (ps : list Player) :
  default defaultPlayer (alter f pid ps !! q) =
  if Nat.eqb pid q && Nat.ltb pid (length ps)
  then f (default defaultPlayer (ps !! q))
  else default defaultPlayer (ps !! q).
Proof.
  destruct (Nat.eqb_spec pid q) as [->|Hne]; simpl.
  - rewrite list_lookup_alter_eq.
    destruct (Nat.ltb_spec q (length ps)) as [Hlt|Hge].
    + destruct (lookup_lt_is_Some_2 ps q Hlt) as [p Hp]. now rewrite Hp.
    + now rewrite (lookup_ge_None_2 ps q Hge).
  - now rewrite list_lookup_alter_ne.
Qed.

Lemma playerOf_modify f pid q w :
  playerOf q (set_players (alter f pid (players w)) w) =
  if Nat.eqb pid q && Nat.ltb pid (length (players w))
  then f (playerOf q w) else playerOf q w.
Proof. unfold playerOf. simpl. apply lookup_alter_player. Qed.

(** ** Seek *)

Lemma handleSeek_nomatch (w : World) (pid : nat) (value : list Z) :
  loaded w ->
  includes (src (props (playerOf pid w))) (a_src (audioOf w)) = false ->
  handleSeek pid value w = (tt, w).
Proof.
  intros [Hi Hs] Hinc.
  destruct w as [[el ini as_ cb] ps ts fs prs dl t n tr rs]. simpl in *. subst.
  destruct el as [a|]; [ | discriminate ].
  cbv [handleSeek bind getAudioElement get when initialize ret readRef
       readAudio].
  simpl. unfold audioOf, playerOf in *. simpl in *. rewrite Hinc. reflexivity.
Qed.

Lemma handleSeek_match (w : World) (pid : nat) (newTime : Z) (rest : list Z) :
  loaded w ->
  (pid < length (players w))%nat ->
  includes (src (props (playerOf pid w))) (a_src (audioOf w)) = true ->
  a_currentTime (audioOf (exec (handleSeek pid (newTime :: rest)) w)) = newTime /\
  currentTime (playerOf pid (exec (handleSeek pid (newTime :: rest)) w)) = newTime /\
  produced (handleSeek pid (newTime :: rest)) w =
    ESetTime newTime ::
    (if onTimeUpdate (props (playerOf pid w))
     then [EOnTimeUpdate pid newTime] else []) /\
  lastTimeUpdateRef (playerOf pid (exec (handleSeek pid (newTime :: rest)) w)) =
    lastTimeUpdateRef (playerOf pid w).
Proof.
  intros [Hi Hs] Hlt Hinc. apply Nat.ltb_lt in Hlt.
  destruct w as [[el ini as_ cb] ps ts fs prs dl t n tr rs]. simpl in *. subst.
  destruct el as [a|]; [ | discriminate ].
  unfold audioOf, playerOf in Hinc. simpl in Hinc.
  cbv [handleSeek exec produced bind getAudioElement get when initialize ret
       readRef readAudio emit modify modifyAudio modifyManager modifyPlayer].
  simpl. unfold audioOf, playerOf. simpl. rewrite Hinc. simpl.
  destruct (onTimeUpdate (props (default defaultPlayer (ps !! pid)))) eqn:Hcb;
    simpl; unfold audioOf, playerOf; simpl;
    rewrite lookup_alter_player, Nat.eqb_refl, Hlt; simpl;
    rewrite <- ?List.app_assoc, drop_app_length; repeat split.
Qed.



(** ** Play errors *)

(** C8.  When the host rejects a pending play promise of a player with
    [NotAllowedError], the catch handler calls the parent's play/pause
    toggle for that player and shows the toast "Please click play to start
    audio"; the coordinator and its element are left exactly as they were. *)
Theorem autoplay_rejection_signals_pause (w : World) (id : nat) (fn : Closure) :
  List.find (fun p => Nat.eqb (fst p) id) (promises w) = Some (id, fn) ->
  produced (rejectPlay id "NotAllowedError") w =
    [EConsoleError; EOnPlayPause (c_owner fn);
     EToastError "Please click play to start audio"] /\
  audioManager (exec (rejectPlay id "NotAllowedError") w) = audioManager w.
Proof.
  intros Hf.
  cbv [rejectPlay exec produced bind get modify playRejected emit when
       onPlayPause].
  rewrite Hf. simpl. split; [ | reflexivity ].
  rewrite <- !List.app_assoc. simpl. apply drop_app_length.
Qed.

Lemma autoplay_rejection_signals_pause_witness :
  List.find (fun p => Nat.eqb (fst p) 12) (promises playing_world) =
    Some (12%nat, mkClosure 0 (playing rec1)) /\
  produced (rejectPlay 12 "NotAllowedError") playing_world =
    [EConsoleError; EOnPlayPause 0;
     EToastError "Please click play to start audio"].
Proof.
  assert (H : List.find (fun p => Nat.eqb (fst p) 12) (promises playing_world) =
              Some (12%nat, mkClosure 0 (playing rec1))) by reflexivity.
  split; [exact H | ].
  exact (proj1 (autoplay_rejection_signals_pause playing_world 12 _ H)).
Defined.

(** C7 as stated fails: after the play promise of the active player is
    rejected, the coordinator still holds that player's source and
    callback. *)
Lemma rejected_player_stays_registered :
  let w := exec (rejectPlay 12 "NotAllowedError") playing_world in
  produced (rejectPlay 12 "NotAllowedError") playing_world =
    [EConsoleError; EOnPlayPause 0;
     EToastError "Please click play to start audio"] /\
  activeSource (audioManager w) = "rec1" /\
  activePlayerCallback (audioManager w) = Some (mkClosure 0 (playing rec1)) /\
  registered w 0 /\ active w 0.
Proof.
  vm_compute. repeat split. eexists. split; reflexivity.
Qed.

Lemma rejectPlay_pair J id n : preserves (onPair J) (rejectPlay id n).
Proof. pres no_special frame_leaf. Qed.

(** C7 (as amended).  No error path of a play attempt writes the
    coordinator: after [playAudio] (whose catch branch runs when [play()]
    throws), after the rejection handler of the play promise, and after the
    element's [error] listeners, [activeSource] and [activePlayerCallback]
    are what they were, so a failing active player stays registered.  A
    later [setActivePlayer] by another player installs its own pair all the
    same. *)
Theorem error_paths_keep_active_pair
    (w : World) (fn : Closure) (id : nat) (errorName : string)
    (source : string) (callback : Closure) :
  let after (m : M unit) := exec m w in
  (pairOf (after (playAudio fn)) = pairOf w /\
   pairOf (after (rejectPlay id errorName)) = pairOf w /\
   pairOf (after (playRejected fn errorName)) = pairOf w /\
   pairOf (after (dispatch LError)) = pairOf w) /\
  (pairOf (exec (setActivePlayer source callback) (after (playAudio fn))) =
     (source, Some callback) /\
   pairOf (exec (setActivePlayer source callback) (after (rejectPlay id errorName))) =
     (source, Some callback) /\
   pairOf (exec (setActivePlayer source callback) (after (dispatch LError))) =
     (source, Some callback)).
Proof.
  intros after. split.
  - repeat split.
    + exact (playAudio_pair (fun p => p = pairOf w) fn w eq_refl).
    + exact (rejectPlay_pair (fun p => p = pairOf w) id errorName w eq_refl).
    + exact (playRejected_pair (fun p => p = pairOf w) fn errorName w eq_refl).
    + exact (dispatch_pair (fun p => p = pairOf w) LError w eq_refl).
  - repeat split; apply (setActivePlayer_pair source callback _ Logic.I).
Qed.

(** ** The throttled listener *)

Lemma later_stamp pid t0 last0 q w w1 :
  later pid t0 last0 w ->
  timeUpdateThreshold < now w - lastTimeUpdateRef (playerOf q w) ->
  now w1 = now w ->
  length (players w1) = length (players w) ->
  lastTimeUpdateRef (playerOf pid w1) = lastTimeUpdateRef (playerOf pid w) ->
  later pid t0 last0
    (set_players (alter (set_lastTimeUpdateRef (now w)) q (players w1)) w1).
Proof.
  intros (H1 & H2 & H3) Hth Hn Hlen Hlast. unfold timeUpdateThreshold in Hth.
  split; [ simpl; lia | split ].
  - rewrite playerOf_modify.
    destruct (Nat.eqb_spec q pid) as [->|Hne]; simpl.
    + destruct (Nat.ltb _ _); simpl; lia.
    + lia.
  - simpl. rewrite length_alter. lia.
Qed.

Lemma last_set_currentTime pid q v w :
  lastTimeUpdateRef
    (playerOf pid (set_players (alter (set_currentTime v) q (players w)) w)) =
  lastTimeUpdateRef (playerOf pid w).
Proof. rewrite playerOf_modify. destruct (_ && _); reflexivity. Qed.

Lemma handleTimeUpdate_later pid t0 last0 fn :
  preserves (later pid t0 last0) (handleTimeUpdate fn).
Proof.
  intros w Hw.
  cbv [handleTimeUpdate bind get readRef readAudio when ret emit modify
       modifyPlayer].
  destruct (timeUpdateThreshold <? now w - lastTimeUpdateRef (playerOf (c_owner fn) w))
    eqn:Hth; simpl; [ | exact Hw ].
  apply Z.ltb_lt in Hth.
  destruct (includes _ _); simpl.
  - destruct (onTimeUpdate (c_props fn)); simpl;
      apply (later_stamp pid t0 last0 (c_owner fn) w); try assumption;
      try reflexivity; simpl; rewrite ?length_alter; try reflexivity;
      apply last_set_currentTime.
  - apply (later_stamp pid t0 last0 (c_owner fn) w); try assumption; reflexivity.
Qed.

Lemma advance_later pid t0 last0 dt : preserves (later pid t0 last0) (advance dt).
Proof.
  intros w (H1 & H2 & H3). cbv [advance bind get when modify ret].
  destruct (0 <=? dt) eqn:Hdt; simpl; [ | repeat split; assumption ].
  destruct (forallb _ _); simpl; [ | repeat split; assumption ].
  apply Z.leb_le in Hdt. split; [ simpl; lia | split; assumption ].
Qed.

Ltac later_leaf :=
  let w := fresh "w" in
  let H1 := fresh "H" in let H2 := fresh "H" in let H3 := fresh "H" in
  intros w (H1 & H2 & H3);
  first
    [ exact (conj H1 (conj H2 H3))
    | split; [ exact H1 | split;
        [ rewrite playerOf_modify; destruct (_ && _); simpl; exact H2
        | simpl; rewrite length_alter; exact H3 ] ]
    | split; [ exact H1 | split;
        [ unfold playerOf in *; simpl; rewrite lookup_app_l by exact H3; exact H2
        | simpl; rewrite length_app; simpl; lia ] ]
    | split; [ simpl; lia | split; [ exact H2 | exact H3 ] ] ].

Ltac later_special :=
  idtac; lazymatch goal with
  | |- preserves _ (handleTimeUpdate _) => apply handleTimeUpdate_later
  | |- preserves _ (advance _) => apply advance_later
  end.

Section LaterFrames.
Variables (pid : nat) (t0 last0 : Z).

Lemma getAudioElement_later : preserves (later pid t0 last0) getAudioElement.
  Proof. pres no_special later_leaf. Qed.

Lemma updateAudioSource_later q s :
    preserves (later pid t0 last0) (updateAudioSource q s).
  Proof.
    pres ltac:(idtac; lazymatch goal with
               | |- preserves _ getAudioElement => apply getAudioElement_later
               end) later_leaf.
  Qed.

Lemma playAudio_later fn : preserves (later pid t0 last0) (playAudio fn).
  Proof.
    pres ltac:(idtac; lazymatch goal with
               | |- preserves _ (updateAudioSource _ _) =>
                   apply updateAudioSource_later
               end) later_leaf.
  Qed.

Lemma stopSliderUpdates_later q :
    preserves (later pid t0 last0) (stopSliderUpdates q).
  Proof. pres no_special later_leaf. Qed.

Lemma startSliderUpdates_later fn :
    preserves (later pid t0 last0) (startSliderUpdates fn).
  Proof.
    pres ltac:(idtac; lazymatch goal with
               | |- preserves _ (stopSliderUpdates _) =>
                   apply stopSliderUpdates_later
               end) later_leaf.
  Qed.

Lemma waitForCanPlay_later fn :
    preserves (later pid t0 last0) (waitForCanPlay fn).
  Proof. pres no_special later_leaf. Qed.

Lemma setActivePlayer_later s cb :
    preserves (later pid t0 last0) (setActivePlayer s cb).
  Proof. pres no_special later_leaf. Qed.

Lemma clearActive_later : preserves (later pid t0 last0) clearActive.
  Proof. pres no_special later_leaf. Qed.
End LaterFrames.

Ltac later_special1 :=
  idtac; lazymatch goal with
  | |- preserves _ (handleTimeUpdate _) => apply handleTimeUpdate_later
  | |- preserves _ (advance _) => apply advance_later
  | |- preserves _ getAudioElement => apply getAudioElement_later
  | |- preserves _ (updateAudioSource _ _) => apply updateAudioSource_later
  | |- preserves _ (playAudio _) => apply playAudio_later
  | |- preserves _ (stopSliderUpdates _) => apply stopSliderUpdates_later
  | |- preserves _ (startSliderUpdates _) => apply startSliderUpdates_later
  | |- preserves _ (waitForCanPlay _) => apply waitForCanPlay_later
  | |- preserves _ (setActivePlayer _ _) => apply setActivePlayer_later
  | |- preserves _ clearActive => apply clearActive_later
  end.

Section LaterEffects.
Variables (pid : nat) (t0 last0 : Z).

Lemma playBranch_later fn : preserves (later pid t0 last0) (playBranch fn).
  Proof. pres later_special1 later_leaf. Qed.

Lemma pauseBranch_later fn b : preserves (later pid t0 last0) (pauseBranch fn b).
  Proof. pres later_special1 later_leaf. Qed.

Lemma sourceEffect_later fn : preserves (later pid t0 last0) (sourceEffect fn).
  Proof. pres later_special1 later_leaf. Qed.

Lemma setupEffect_later fn : preserves (later pid t0 last0) (setupEffect fn).
  Proof. pres later_special1 later_leaf. Qed.

Lemma setupCleanup_later fn : preserves (later pid t0 last0) (setupCleanup fn).
  Proof. pres later_special1 later_leaf. Qed.

Lemma unmountCleanup_later fn : preserves (later pid t0 last0) (unmountCleanup fn).
  Proof. pres later_special1 later_leaf. Qed.

Lemma initialTimeEffect_later fn :
    preserves (later pid t0 last0) (initialTimeEffect fn).
  Proof. pres later_special1 later_leaf. Qed.

Lemma volumeEffect_later q : preserves (later pid t0 last0) (volumeEffect q).
  Proof. pres later_special1 later_leaf. Qed.

Lemma runListener_later l : preserves (later pid t0 last0) (runListener l).
  Proof. pres later_special1 later_leaf. Qed.

Lemma runTimer_later a : preserves (later pid t0 last0) (runTimer a).
  Proof. pres later_special1 later_leaf. Qed.

Lemma updateSlider_later fn : preserves (later pid t0 last0) (updateSlider fn).
  Proof. pres later_special1 later_leaf. Qed.
End LaterEffects.

Ltac later_special2 :=
  idtac; lazymatch goal with
  | |- preserves _ (playBranch _) => apply playBranch_later
  | |- preserves _ (pauseBranch _ _) => apply pauseBranch_later
  | |- preserves _ (sourceEffect _) => apply sourceEffect_later
  | |- preserves _ (setupEffect _) => apply setupEffect_later
  | |- preserves _ (setupCleanup _) => apply setupCleanup_later
  | |- preserves _ (unmountCleanup _) => apply unmountCleanup_later
  | |- preserves _ (initialTimeEffect _) => apply initialTimeEffect_later
  | |- preserves _ (volumeEffect _) => apply volumeEffect_later
  | |- preserves _ (runListener _) => apply runListener_later
  | |- preserves _ (runTimer _) => apply runTimer_later
  | |- preserves _ (updateSlider _) => apply updateSlider_later
  | |- _ => later_special1
  end.

Lemma step_later pid t0 last0 e : preserves (later pid t0 last0) (step e).
Proof. destruct e; pres later_special2 later_leaf. Qed.

Lemma run_later pid t0 last0 es : preserves (later pid t0 last0) (run es).
Proof. apply pres_forM. intros e. apply step_later. Qed.

(** What one call of the listener does. *)
Lemma handleTimeUpdate_result fn w :
  (c_owner fn < length (players w))%nat ->
  let w1 := exec (handleTimeUpdate fn) w in
  now w1 = now w /\
  length (players w1) = length (players w) /\
  (forwards fn w = false ->
     produced (handleTimeUpdate fn) w = [] /\
     currentTime (playerOf (c_owner fn) w1) = currentTime (playerOf (c_owner fn) w)) /\
  (forwards fn w = true ->
     lastTimeUpdateRef (playerOf (c_owner fn) w1) = now w /\
     currentTime (playerOf (c_owner fn) w1) = a_currentTime (audioOf w) /\
     produced (handleTimeUpdate fn) w =
       if onTimeUpdate (c_props fn)
       then [EOnTimeUpdate (c_owner fn) (a_currentTime (audioOf w))] else []).
Proof.
  intros Hlt. apply Nat.ltb_lt in Hlt. unfold forwards.
  cbv [handleTimeUpdate exec produced bind get readRef readAudio when ret emit
       modify modifyPlayer].
  destruct (timeUpdateThreshold <? now w - lastTimeUpdateRef (playerOf (c_owner fn) w));
    simpl.
  2: { split; [reflexivity | split; [reflexivity | split; [ | discriminate ] ] ].
       intros _. split; [apply drop_all | reflexivity]. }
  destruct (includes (src (c_props fn)) (a_src (audioOf w))); simpl.
  - split; [ destruct (onTimeUpdate (c_props fn)); reflexivity | ].
    split; [ destruct (onTimeUpdate (c_props fn)); simpl;
             now rewrite !length_alter | ].
    split; [ discriminate | intros _ ].
    destruct (onTimeUpdate (c_props fn)); simpl;
      unfold playerOf; simpl;
      rewrite !lookup_alter_player, ?length_alter, Nat.eqb_refl, Hlt; simpl;
      rewrite ?drop_app_length, ?drop_all; repeat split.
  - split; [ reflexivity | ]. split; [ now rewrite length_alter | ].
    split; [ | discriminate ]. intros _.
    rewrite playerOf_modify, Nat.eqb_refl, Hlt; simpl.
    split; [ apply drop_all | reflexivity ].
Qed.

(** C9.  The throttled [timeupdate] listener of a player forwards a position
    (to the player's displayed position and, when supplied, to the parent's
    [onTimeUpdate]) exactly when both of its guards pass; whenever it has
    forwarded at one moment and, after any events of the page, forwards
    again, more than 250ms of [Date.now()] lie between the two. *)
Theorem timeupdate_throttle (fn : Closure) (w : World) (es : list Event) :
  (c_owner fn < length (players w))%nat ->
  let w1 := exec (handleTimeUpdate fn) w in
  let w2 := exec (run es) w1 in
  (forwards fn w = false -> produced (handleTimeUpdate fn) w = []) /\
  (forwards fn w = true ->
     currentTime (playerOf (c_owner fn) w1) = a_currentTime (audioOf w) /\
     produced (handleTimeUpdate fn) w =
       if onTimeUpdate (c_props fn)
       then [EOnTimeUpdate (c_owner fn) (a_currentTime (audioOf w))] else []) /\
  (forwards fn w = true -> forwards fn w2 = true ->
     timeUpdateThreshold < now w2 - now w).
Proof.
  intros Hlt w1 w2.
  destruct (handleTimeUpdate_result fn w Hlt) as (Hn & Hlen & Hno & Hyes).
  fold w1 in Hn, Hlen, Hno, Hyes.
  split; [ intros H; exact (proj1 (Hno H)) | split ].
  - intros H. destruct (Hyes H) as (_ & Hc & Hp). exact (conj Hc Hp).
  - intros H H2. destruct (Hyes H) as (Hlast & _ & _).
    assert (Hl1 : later (c_owner fn) (now w) (now w) w1).
    { split; [ lia | split; [ lia | lia ] ]. }
    pose proof (run_later (c_owner fn) (now w) (now w) es w1 Hl1) as (_ & Hl2 & _).
    fold (exec (run es) w1) in Hl2. fold w2 in Hl2.
    unfold forwards in H2. apply andb_prop in H2. destruct H2 as [H2 _].
    apply Z.ltb_lt in H2. lia.
Qed.

Lemma timeupdate_throttle_witness :
  let fn := mkClosure 0 rec1 in
  let es := [Advance 300; HostProgress 9] in
  let w2 := exec (run es) (exec (handleTimeUpdate fn) later_world) in
  (c_owner fn < length (players later_world))%nat /\
  forwards fn later_world = true /\
  forwards fn w2 = true /\
  timeUpdateThreshold < now w2 - now later_world.
Proof.
  intros fn es w2.
  assert (H0 : (c_owner fn < length (players later_world))%nat)
    by (vm_compute; lia).
  split; [exact H0 | split; [reflexivity | split; [reflexivity | ] ] ].
  exact (proj2 (proj2 (timeupdate_throttle fn later_world es H0))
               eq_refl eq_refl).
Defined.

(** ** Substring matching *)

Lemma prefix_spec pat s :
  String.prefix pat s = true <-> exists post, s = pat ++ post.
Proof.
  revert s. induction pat as [|c pat IH]; intros s.
  - split; [ intros _; exists s; reflexivity | intros _; destruct s; reflexivity ].
  - destruct s as [|d s]; simpl.
    + split; [ discriminate | intros [post H]; discriminate ].
    + destruct (Ascii.ascii_dec c d) as [->|Hne].
      * rewrite IH. split; intros [post H]; exists post.
        -- now rewrite H.
        -- now injection H.
      * split; [ discriminate | intros [post H]; injection H as H1 _; congruence ].
Qed.

Lemma includes_spec pat s :
  includes pat s = true <-> exists pre post, s = pre ++ pat ++ post.
Proof.
  induction s as [|d s IH].
  - change (includes pat "") with (String.prefix pat "" || false).
    rewrite orb_false_r, prefix_spec. split.
    + intros [post H]. exists "", post. exact H.
    + intros (pre & post & H).
      destruct pre; simpl in H; [ now exists post | discriminate ].
  - change (includes pat (String d s))
      with (String.prefix pat (String d s) || includes pat s).
    rewrite orb_true_iff, IH, prefix_spec. split.
    + intros [[post H] | (pre & post & H)].
      * exists "", post. exact H.
      * exists (String d pre), post. simpl. now rewrite H.
    + intros (pre & post & H). destruct pre as [|c pre]; simpl in H.
      * left. now exists post.
      * right. injection H as _ H. now exists pre, post.
Qed.

Lemma includes_empty s : includes "" s = true.
Proof. apply includes_spec. exists "", s. reflexivity. Qed.

Lemma handleEnded_match fn w :
  includes (src (c_props fn)) (a_src (audioOf w)) = true ->
  produced (handleEnded fn) w =
    ((if onTimeUpdate (c_props fn) then [EOnTimeUpdate (c_owner fn) 0] else [])
     ++ [EOnPlayPause (c_owner fn)])%list.
Proof.
  intros Hinc.
  cbv [handleEnded produced exec bind readAudio get when modifyPlayer modify
       emit onPlayPause ret].
  rewrite Hinc. simpl.
  destruct (onTimeUpdate (c_props fn)); simpl;
    rewrite <- ?List.app_assoc; apply drop_app_length.
Qed.

Lemma updateSlider_match fn w :
  (c_owner fn < length (players w))%nat ->
  audioRef (playerOf (c_owner fn) w) = true ->
  a_paused (audioOf w) = false ->
  includes (src (c_props fn)) (a_src (audioOf w)) = true ->
  currentTime (playerOf (c_owner fn) (exec (updateSlider fn) w)) =
    a_currentTime (audioOf w).
Proof.
  intros Hlt Hr Hp Hinc. apply Nat.ltb_lt in Hlt.
  cbv [updateSlider exec bind readRef readAudio get when modifyPlayer modify
       emit requestAnimationFrame fresh ret].
  rewrite Hr, Hp, Hinc. simpl.
  destruct (onTimeUpdate (c_props fn)); simpl; unfold playerOf; simpl;
    rewrite !lookup_alter_player, ?length_alter, Nat.eqb_refl, Hlt; reflexivity.
Qed.

(** ** Waiting for [canplay] *)

Lemma count_app f l1 l2 : count f (l1 ++ l2)%list = (count f l1 + count f l2)%nat.
Proof. unfold count. now rewrite List.filter_app, length_app. Qed.

Lemma filter_none {A} (f : A -> bool) l :
  forallb (fun x => negb (f x)) l = true -> List.filter f l = [].
Proof.
  induction l as [|x l IH]; simpl; [reflexivity | ].
  destruct (f x); simpl; [discriminate | exact IH].
Qed.

(** A play attempt on a paused element that has the player's source loaded
    calls [play()] once, whatever the host answers. *)
Lemma playAudio_attempt fn w a :
  activeElement (audioManager w) = Some a ->
  a_paused a = true ->
  includes (src (c_props fn)) (a_src a) = true ->
  exists a' out,
    activeElement (audioManager (exec (playAudio fn) w)) = Some a' /\
    a_listeners a' = a_listeners a /\
    isInitialized (audioManager (exec (playAudio fn) w)) =
      isInitialized (audioManager w) /\
    players (exec (playAudio fn) w) = players w /\
    trace (exec (playAudio fn) w) = (trace w ++ EPlay :: out)%list /\
    count isPlay out = 0%nat.
Proof.
  intros He Hp Hinc.
  destruct w as [[el ini as_ cb] ps ts fs prs dl t n tr rs]. simpl in He. subst el.
  cbv [playAudio exec bind readAudio get audioOf when audio_play emit modify
       modifyAudio modifyManager fresh onPlayPause ret].
  simpl. rewrite Hinc. simpl. rewrite Hp. simpl.
  destruct (a_play a); simpl; eexists; eexists;
    (split; [reflexivity | ]); (split; [reflexivity | ]);
    (split; [reflexivity | ]); (split; [reflexivity | ]);
    rewrite <- ?List.app_assoc; simpl; split; reflexivity.
Qed.

Lemma noCanPlay_filter g ls : noCanPlay ls = true -> noCanPlay (List.filter g ls) = true.
Proof.
  unfold noCanPlay. induction ls as [|l ls IH]; simpl; [reflexivity | ].
  intros H. apply andb_prop in H. destruct H as [H1 H2].
  destruct (g l); simpl; [ rewrite H1 | ]; auto.
Qed.

Lemma canPlayHandler_armed fn h w :
  armed fn h w ->
  count isPlay (produced (canPlayHandler h fn) w) = 1%nat /\
  settled fn (exec (canPlayHandler h fn) w).
Proof.
  intros (a & ls & He & Hp & Hinc & Hls & Hno & Hch & Hlt).
  destruct (playAudio_attempt fn w a He Hp Hinc)
    as (a' & out & He' & Hls' & _ & Hps & Ht & Hout).
  unfold canPlayHandler. unfold produced. rewrite !exec_bind.
  change (snd (playAudio fn w)) with (exec (playAudio fn) w).
  set (w1 := exec (playAudio fn) w) in *.
  cbv [exec modifyPlayer removeEventListener modifyAudio modifyManager modify
       bind]. simpl.
  split.
  - rewrite Ht, drop_app_length. simpl. unfold count in *. simpl. now rewrite Hout.
  - split.
    + unfold playerOf. simpl. rewrite lookup_alter_player, Nat.eqb_refl.
      rewrite Hps. apply Nat.ltb_lt in Hlt. rewrite Hlt. reflexivity.
    + unfold audioOf. simpl. rewrite He'. simpl. rewrite Hls', Hls.
      rewrite List.filter_app. simpl. rewrite Nat.eqb_refl. simpl.
      rewrite app_nil_r. apply noCanPlay_filter, Hno.
Qed.

Lemma dispatch_armed fn h w :
  armed fn h w ->
  count isPlay (produced (dispatch LCanPlay) w) = 1%nat /\
  settled fn (exec (dispatch LCanPlay) w).
Proof.
  intros Harm. pose proof Harm as (a & ls & He & _ & _ & Hls & Hno & _ & _).
  assert (Hd : dispatch LCanPlay w =
               (canPlayHandler h fn ;; ret tt) w).
  { cbv [dispatch bind readAudio get audioOf]. rewrite He. simpl. rewrite Hls.
    rewrite List.filter_app, (filter_none _ ls Hno). simpl.
    cbv [bind get]. simpl. rewrite He. simpl. rewrite Hls, existsb_app. simpl.
    rewrite Nat.eqb_refl, orb_true_r. simpl. reflexivity. }
  unfold produced, exec. rewrite Hd.
  destruct (canPlayHandler_armed fn h w Harm) as [H1 H2].
  unfold produced, exec in H1, H2.
  cbv [bind ret]. destruct (canPlayHandler h fn w) as [u w']. simpl in *.
  split; assumption.
Qed.

Lemma canPlayFallback_armed fn h w :
  armed fn h w ->
  count isPlay (produced (canPlayFallback fn h) w) = 1%nat /\
  settled fn (exec (canPlayFallback fn h) w).
Proof.
  intros (a & ls & He & Hp & Hinc & Hls & Hno & Hch & Hlt).
  assert (Hd : canPlayFallback fn h w =
               (modifyPlayer (c_owner fn) (set_sourceChangedRef false) ;;
                playAudio fn ;; removeEventListener h) w).
  { cbv [canPlayFallback bind readRef get when]. now rewrite Hch. }
  unfold produced, exec. rewrite Hd.
  change (snd ((modifyPlayer (c_owner fn) (set_sourceChangedRef false) ;;
                playAudio fn ;; removeEventListener h) w))
    with (exec (modifyPlayer (c_owner fn) (set_sourceChangedRef false) ;;
                playAudio fn ;; removeEventListener h) w).
  set (w0 := set_players (alter (set_sourceChangedRef false) (c_owner fn)
                                (players w)) w).
  assert (He0 : activeElement (audioManager w0) = Some a) by exact He.
  destruct (playAudio_attempt fn w0 a He0 Hp Hinc)
    as (a' & out & He' & Hls' & _ & Hps & Ht & Hout).
  rewrite !exec_bind.
  change (snd (modifyPlayer (c_owner fn) (set_sourceChangedRef false) w)) with w0.
  change (snd (playAudio fn w0)) with (exec (playAudio fn) w0).
  set (w1 := exec (playAudio fn) w0) in *.
  cbv [exec removeEventListener modifyAudio modifyManager modify]. simpl.
  split.
  - rewrite Ht. change (trace w0) with (trace w). rewrite drop_app_length.
    unfold count in *. simpl. now rewrite Hout.
  - split.
    + unfold playerOf. simpl. rewrite Hps. unfold w0. simpl.
      rewrite lookup_alter_player, Nat.eqb_refl.
      apply Nat.ltb_lt in Hlt. rewrite Hlt. reflexivity.
    + unfold audioOf. simpl. rewrite He'. simpl. rewrite Hls', Hls.
      rewrite List.filter_app. simpl. rewrite Nat.eqb_refl. simpl.
      rewrite app_nil_r. apply noCanPlay_filter, Hno.
Qed.

Lemma canPlayFallback_settled fn h w :
  settled fn w -> canPlayFallback fn h w = (tt, w).
Proof.
  intros [Hch _]. cbv [canPlayFallback bind readRef get when ret].
  now rewrite Hch.
Qed.

Lemma dispatch_settled fn w :
  settled fn w -> dispatch LCanPlay w = (tt, w).
Proof.
  intros [_ Hno]. cbv [dispatch bind readAudio get].
  unfold noCanPlay in Hno. now rewrite (filter_none _ _ Hno).
Qed.

Lemma canPlayFallback_now t fn h :
  preserves (fun w => now w = t) (canPlayFallback fn h).
Proof. pres no_special frame_leaf. Qed.

Lemma waitForCanPlay_arms fn w a :
  activeElement (audioManager w) = Some a ->
  a_paused a = true ->
  includes (src (c_props fn)) (a_src a) = true ->
  noCanPlay (a_listeners a) = true ->
  sourceChangedRef (playerOf (c_owner fn) w) = true ->
  (c_owner fn < length (players w))%nat ->
  armed fn (nextId w) (exec (waitForCanPlay fn) w).
Proof.
  intros He Hp Hinc Hno Hch Hlt.
  destruct w as [[el ini as_ cb] ps ts fs prs dl t n tr rs]. simpl in *. subst el.
  exists (set_a_listeners (a_listeners a ++ [mkListener n LCanPlay fn]) a),
         (a_listeners a).
  repeat split; assumption.
Qed.

(** One wait on its own.  After a source swap (the element is paused with
    the player's source loaded, the swap flag is set, no other wait is
    pending), [waitForCanPlay] plays nothing itself and arms one [canplay] handler and
    one timer due 1000ms later.  If [canplay] comes first, [play()] is
    called once then and the timer does nothing; if the timer fires first,
    [play()] is called once then and a later [canplay] does nothing; if
    [canplay] never comes, the timer alone calls [play()] once, at the
    moment the clock reaches the 1000ms. *)
Lemma waitForCanPlay_single_wait (w : World) (fn : Closure) (a : Audio) :
  activeElement (audioManager w) = Some a ->
  a_paused a = true ->
  includes (src (c_props fn)) (a_src a) = true ->
  noCanPlay (a_listeners a) = true ->
  sourceChangedRef (playerOf (c_owner fn) w) = true ->
  (c_owner fn < length (players w))%nat ->
  let h := nextId w in
  let w1 := exec (waitForCanPlay fn) w in
  let ready := dispatch LCanPlay in
  let timeout := runTimer (CanPlayFallback fn h) in
  (produced (waitForCanPlay fn) w = [] /\
   timers w1 =
     (timers w ++ [mkTimer (S h) (now w + 1000) (CanPlayFallback fn h)])%list) /\
  (count isPlay (produced ready w1) = 1%nat /\
   timeout (exec ready w1) = (tt, exec ready w1)) /\
  (count isPlay (produced timeout w1) = 1%nat /\
   ready (exec timeout w1) = (tt, exec timeout w1)) /\
  (timers w = [] ->
   count isPlay (produced fireTimer w1) = 1%nat /\
   now (exec fireTimer w1) = now w + 1000).
Proof.
  intros He Hp Hinc Hno Hch Hlt h w1 ready timeout.
  pose proof (waitForCanPlay_arms fn w a He Hp Hinc Hno Hch Hlt) as Harm.
  fold h w1 in Harm.
  split; [ | split; [ | split ] ].
  - split.
    + unfold produced. cbv [waitForCanPlay exec bind addEventListener fresh
        modifyAudio modifyManager modify setTimeout get ret]. simpl.
      apply drop_all.
    + reflexivity.
  - destruct (dispatch_armed fn h w1 Harm) as [H1 H2].
    split; [exact H1 | ]. apply canPlayFallback_settled, H2.
  - destruct (canPlayFallback_armed fn h w1 Harm) as [H1 H2].
    split; [exact H1 | ]. apply (dispatch_settled fn), H2.
  - intros Hts.
    set (w2 := set_now (Z.max (now w1) (now w + 1000)) (set_timers [] w1)).
    assert (Hf : fireTimer w1 = canPlayFallback fn h w2).
    { cbv [fireTimer bind get modify runTimer].
      change (timers w1)
        with (timers w ++ [mkTimer (S h) (now w + 1000) (CanPlayFallback fn h)])%list.
      rewrite Hts. simpl. rewrite Hts. simpl. unfold h.
      rewrite Nat.eqb_refl. reflexivity. }
    assert (Harm2 : armed fn h w2) by exact Harm.
    destruct (canPlayFallback_armed fn h w2 Harm2) as [H1 H2].
    unfold produced, exec in *. rewrite Hf.
    split; [exact H1 | ].
    assert (Hn : now (snd (canPlayFallback fn h w2)) = now w2)
      by exact (canPlayFallback_now (now w2) fn h w2 eq_refl).
    rewrite Hn. unfold w2. simpl.
    change (now w1) with (now w). lia.
Qed.

Lemma waitForCanPlay_single_wait_witness :
  let fn := mkClosure 0 (playing rec1) in
  let w := swapped_world in
  let w1 := exec (waitForCanPlay fn) w in
  (activeElement (audioManager w) = Some (audioOf w) /\
   a_paused (audioOf w) = true /\
   includes "rec1" (a_src (audioOf w)) = true /\
   noCanPlay (a_listeners (audioOf w)) = true /\
   sourceChangedRef (playerOf 0 w) = true /\
   (0 < length (players w))%nat /\
   timers w = []) /\
  count isPlay (produced (dispatch LCanPlay) w1) = 1%nat /\
  count isPlay (produced (runTimer (CanPlayFallback fn (nextId w))) w1) = 1%nat /\
  count isPlay (produced fireTimer w1) = 1%nat /\
  now (exec fireTimer w1) = now w + 1000.
Proof.
  intros fn w w1.
  assert (He : activeElement (audioManager w) = Some (audioOf w)) by (vm_compute; reflexivity).
  assert (Hp : a_paused (audioOf w) = true) by (vm_compute; reflexivity).
  assert (Hi : includes (src (c_props fn)) (a_src (audioOf w)) = true)
    by (vm_compute; reflexivity).
  assert (Hn : noCanPlay (a_listeners (audioOf w)) = true) by (vm_compute; reflexivity).
  assert (Hc : sourceChangedRef (playerOf (c_owner fn) w) = true) by (vm_compute; reflexivity).
  assert (Hl : (c_owner fn < length (players w))%nat) by (vm_compute; lia).
  assert (Ht : timers w = []) by (vm_compute; reflexivity).
  pose proof (waitForCanPlay_single_wait w fn (audioOf w) He Hp Hi Hn Hc Hl)
    as (_ & (H1 & _) & (H2 & _) & H3).
  destruct (H3 Ht) as [H4 H5].
  exact (conj (conj He (conj Hp (conj Hi (conj Hn (conj Hc (conj Hl Ht))))))
              (conj H1 (conj H2 (conj H4 H5)))).
Defined.

(** C5, the code at the failing input.  A play request after a source swap
    arms two waits, one per play/pause effect: two [canplay] handlers and two
    1000ms timers.  When the source is not ready in time, the first timer
    calls [play()], removes its own handler and resets the swap flag; the
    second timer finds the flag reset and leaves its handler registered.
    When the player is then paused and [canplay] arrives at last, that
    handler calls [play()] a second time: the element plays although the
    player is paused and the coordinator is free.  With a host whose
    [play()] throws, the two handlers of one [canplay] call [play()] twice. *)
Theorem late_canplay_plays_again :
  let w1 := timed_out_world in
  let w2 := exec (render 0 rec1) w1 in
  let w3 := exec (dispatch LCanPlay) w2 in
  (count isPlay (trace loading_world) = 0%nat /\
   waits loading_world = 2%nat /\
   map t_due (timers loading_world) = [100; 1000; 1000]) /\
  (now w1 = 1000 /\ timers w1 = [] /\
   count isPlay (trace w1) = 1%nat /\ a_paused (audioOf w1) = false /\
   waits w1 = 1%nat) /\
  (isPlaying (props (playerOf 0 w2)) = false /\
   a_paused (audioOf w2) = true /\ pairOf w2 = ("", None) /\
   waits w2 = 1%nat) /\
  (produced (dispatch LCanPlay) w2 = [EPlay] /\
   count isPlay (trace w3) = 2%nat /\
   a_paused (audioOf w3) = false /\
   isPlaying (props (playerOf 0 w3)) = false /\
   pairOf w3 = ("", None)) /\
  (let v := exec (run [Mount rec1; HostPlay Throws; Render 0%nat (playing rec1);
                       Dispatch LCanPlay]) initialWorld in
   count isPlay (trace v) = 2%nat).
Proof. vm_compute. repeat split. Qed.

(** ** Source guards *)

Lemma playAudio_mismatch fn w :
  includes (src (c_props fn)) (a_src (audioOf w)) = false ->
  playAudio fn w = updateAudioSource (c_owner fn) (src (c_props fn)) w.
Proof.
  intros Hinc. cbv [playAudio bind readAudio get]. now rewrite Hinc.
Qed.

Lemma playAudio_match fn w :
  loaded w ->
  includes (src (c_props fn)) (a_src (audioOf w)) = true ->
  count isPlay (produced (playAudio fn) w) =
    if a_paused (audioOf w) then 1%nat else 0%nat.
Proof.
  intros [_ Hs] Hinc.
  destruct (activeElement (audioManager w)) as [a|] eqn:He; [ | discriminate ].
  assert (Ha : audioOf w = a) by (unfold audioOf; now rewrite He).
  rewrite Ha in *.
  destruct (a_paused a) eqn:Hp.
  - destruct (playAudio_attempt fn w a He Hp Hinc) as (a' & out & _ & _ & _ & _ & Ht & Hc).
    rewrite (produced_emits _ _ _ Ht). unfold count in *. simpl. now rewrite Hc.
  - assert (H : playAudio fn w = (tt, w)).
    { cbv [playAudio bind readAudio get when ret]. rewrite Ha, Hinc.
      cbv beta iota delta [negb]. now rewrite Ha, Hp. }
    unfold produced, exec. rewrite H. simpl. now rewrite drop_all.
Qed.

Lemma pauseBranch_skips fn recheck w :
  truthy (a_src (audioOf w)) && includes (src (c_props fn)) (a_src (audioOf w)) &&
    String.eqb (activeSource (audioManager w)) (src (c_props fn)) = false ->
  pauseBranch fn recheck w = (tt, w).
Proof.
  intros H. cbv [pauseBranch bind readAudio get activeIs when ret].
  now rewrite H.
Qed.

Lemma pauseBranch_fires fn recheck w :
  loaded w ->
  truthy (a_src (audioOf w)) && includes (src (c_props fn)) (a_src (audioOf w)) &&
    String.eqb (activeSource (audioManager w)) (src (c_props fn)) = true ->
  count isPause (produced (pauseBranch fn recheck) w) = 1%nat /\
  a_paused (audioOf (exec (pauseBranch fn recheck) w)) = true /\
  pairOf (exec (pauseBranch fn recheck) w) = ("", None).
Proof.
  intros [Hi Hs] H.
  assert (Hact : String.eqb (activeSource (audioManager w)) (src (c_props fn)) = true)
    by (apply andb_true_iff in H; tauto).
  destruct w as [[el ini as_ cb] ps ts fs prs dl t n tr rs]. simpl in *. subst.
  destruct el as [a|]; [ | discriminate ].
  unfold audioOf in H. simpl in H.
  cbv [pauseBranch exec produced bind activeIs get when readAudio
       ret audio_pause emit modify modifyAudio modifyManager
       clearActive stopSliderUpdates readRef
       cancelAnimationFrame modifyPlayer].
  simpl. unfold audioOf. simpl. rewrite H. simpl.
  destruct (animationRef _) as [[|id]|]; destruct recheck; simpl;
    rewrite ?Hact; simpl;
    rewrite <- ?List.app_assoc; simpl; rewrite drop_app_length;
    repeat split.
Qed.

Lemma handleEnded_nomatch fn w :
  includes (src (c_props fn)) (a_src (audioOf w)) = false ->
  handleEnded fn w = (tt, w).
Proof.
  intros Hinc. cbv [handleEnded bind readAudio get when ret]. now rewrite Hinc.
Qed.

Lemma updateSlider_nomatch fn w :
  includes (src (c_props fn)) (a_src (audioOf w)) = false ->
  updateSlider fn w = (tt, w).
Proof.
  intros Hinc. cbv [updateSlider bind readRef readAudio get when ret].
  now rewrite Hinc, andb_false_r.
Qed.

(** C10.  Every "source matches" guard is [audio.src.includes(src)], and
    [includes] is substring containment, not equality: it holds exactly when
    the element's source is some prefix, the player's source and some suffix,
    so the empty source is contained in every one.  Each guard acts when the
    player's source is contained and not otherwise: [playAudio] calls
    [play()] on a paused element and swaps the source when it is not
    contained; the pause branch pauses and clears the coordinator when the
    source is contained, the element's source is not empty and the
    coordinator's source is the player's; a seek moves the element; the
    [ended] listener resets and signals the parent; the throttled listener
    and the sampling loop forward the element's position.  The listeners use
    the props they closed over, a seek the props of the last render. *)
Theorem source_guards_test_containment (w : World) (fn : Closure) (pid : nat) :
  loaded w ->
  (c_owner fn < length (players w))%nat ->
  (pid < length (players w))%nat ->
  let cur := a_src (audioOf w) in
  let mine := includes (src (c_props fn)) cur in
  let own := String.eqb (activeSource (audioManager w)) (src (c_props fn)) in
  ((forall pat s, includes pat s = true <-> exists pre post, s = pre ++ pat ++ post) /\
   includes "" cur = true) /\
  ((mine = false ->
      playAudio fn w = updateAudioSource (c_owner fn) (src (c_props fn)) w) /\
   (mine = true ->
      count isPlay (produced (playAudio fn) w) =
        if a_paused (audioOf w) then 1%nat else 0%nat)) /\
  (forall recheck,
     (truthy cur && mine && own = false -> pauseBranch fn recheck w = (tt, w)) /\
     (truthy cur && mine && own = true ->
        count isPause (produced (pauseBranch fn recheck) w) = 1%nat /\
        a_paused (audioOf (exec (pauseBranch fn recheck) w)) = true /\
        pairOf (exec (pauseBranch fn recheck) w) = ("", None))) /\
  (forall t rest,
     (includes (src (props (playerOf pid w))) cur = false ->
        handleSeek pid (t :: rest) w = (tt, w)) /\
     (includes (src (props (playerOf pid w))) cur = true ->
        a_currentTime (audioOf (exec (handleSeek pid (t :: rest)) w)) = t)) /\
  ((mine = false -> handleEnded fn w = (tt, w)) /\
   (mine = true ->
      produced (handleEnded fn) w =
        ((if onTimeUpdate (c_props fn) then [EOnTimeUpdate (c_owner fn) 0] else [])
         ++ [EOnPlayPause (c_owner fn)])%list)) /\
  (timeUpdateThreshold < now w - lastTimeUpdateRef (playerOf (c_owner fn) w) ->
     (mine = false ->
        produced (handleTimeUpdate fn) w = [] /\
        currentTime (playerOf (c_owner fn) (exec (handleTimeUpdate fn) w)) =
          currentTime (playerOf (c_owner fn) w)) /\
     (mine = true ->
        produced (handleTimeUpdate fn) w =
          (if onTimeUpdate (c_props fn)
           then [EOnTimeUpdate (c_owner fn) (a_currentTime (audioOf w))] else []) /\
        currentTime (playerOf (c_owner fn) (exec (handleTimeUpdate fn) w)) =
          a_currentTime (audioOf w))) /\
  (audioRef (playerOf (c_owner fn) w) = true -> a_paused (audioOf w) = false ->
     (mine = false -> updateSlider fn w = (tt, w)) /\
     (mine = true ->
        currentTime (playerOf (c_owner fn) (exec (updateSlider fn) w)) =
          a_currentTime (audioOf w))).
Proof.
  intros Hl Hlt Hpid cur mine own.
  split; [ split; [ exact includes_spec | apply includes_empty ] | ].
  split; [ split; [ apply playAudio_mismatch | apply (playAudio_match fn w Hl) ] | ].
  split.
  { intros recheck. split; [ apply pauseBranch_skips | apply (pauseBranch_fires fn recheck w Hl) ]. }
  split.
  { intros t rest. split; [ apply (handleSeek_nomatch w pid (t :: rest) Hl) | ].
    intros Hinc. exact (proj1 (handleSeek_match w pid t rest Hl Hpid Hinc)). }
  split; [ split; [ apply handleEnded_nomatch | apply handleEnded_match ] | ].
  split.
  { intros Hth. apply Z.ltb_lt in Hth.
    destruct (handleTimeUpdate_result fn w Hlt) as (_ & _ & Hno & Hyes).
    split; intros Hm.
    - apply Hno. unfold forwards. fold cur. fold mine. now rewrite Hm, andb_false_r.
    - destruct Hyes as (_ & Hc & Hp).
      + unfold forwards. fold cur. fold mine. now rewrite Hth, Hm.
      + split; [ exact Hp | exact Hc ]. }
  intros Hr Hp. split; [ apply updateSlider_nomatch | ].
  intros Hm. apply updateSlider_match; assumption.
Qed.

Lemma source_guards_test_containment_witness :
  let guest := mkClosure 1 (mkProps "rec" false true 0 0) in
  let nobody := mkClosure 2 (mkProps "" false true 0 0) in
  let stranger := mkClosure 1 (mkProps "rec2" false true 0 0) in
  (loaded guest_world /\ (2 < length (players guest_world))%nat) /\
  a_src (audioOf guest_world) = "rec1" /\
  a_currentTime (audioOf (exec (handleSeek 1 [5]) guest_world)) = 5 /\
  produced (handleEnded guest) guest_world = [EOnTimeUpdate 1 0; EOnPlayPause 1] /\
  a_currentTime (audioOf (exec (handleSeek 2 [5]) guest_world)) = 5 /\
  produced (handleEnded nobody) guest_world = [EOnTimeUpdate 2 0; EOnPlayPause 2] /\
  handleEnded stranger guest_world = (tt, guest_world).
Proof.
  intros guest nobody stranger.
  assert (Hl : loaded guest_world) by (split; vm_compute; reflexivity).
  assert (H1 : (1 < length (players guest_world))%nat) by (vm_compute; lia).
  assert (H2 : (2 < length (players guest_world))%nat) by (vm_compute; lia).
  assert (Hs : a_src (audioOf guest_world) = "rec1") by (vm_compute; reflexivity).
  assert (Hg : includes (src (c_props guest)) (a_src (audioOf guest_world)) = true)
    by (vm_compute; reflexivity).
  assert (Hn : includes (src (c_props nobody)) (a_src (audioOf guest_world)) = true)
    by (vm_compute; reflexivity).
  assert (Hx : includes (src (c_props stranger)) (a_src (audioOf guest_world)) = false)
    by (vm_compute; reflexivity).
  assert (Hg' : includes (src (props (playerOf 1 guest_world)))
                         (a_src (audioOf guest_world)) = true)
    by (vm_compute; reflexivity).
  assert (Hn' : includes (src (props (playerOf 2 guest_world)))
                         (a_src (audioOf guest_world)) = true)
    by (vm_compute; reflexivity).
  pose proof (source_guards_test_containment guest_world guest 1 Hl H1 H1)
    as (_ & _ & _ & Ha & (_ & Hb) & _).
  pose proof (source_guards_test_containment guest_world nobody 2 Hl H2 H2)
    as (_ & _ & _ & Hc & (_ & Hd) & _).
  pose proof (source_guards_test_containment guest_world stranger 1 Hl H1 H1)
    as (_ & _ & _ & _ & (He & _) & _).
  exact (conj (conj Hl H2)
          (conj Hs
            (conj (proj2 (Ha 5 []) Hg')
              (conj (Hb Hg)
                (conj (proj2 (Hc 5 []) Hn') (conj (Hd Hn) (He Hx))))))).
Defined.

(** * Further properties of the component *)

(** ** The shared element is never destroyed *)

Ltac loaded_leaf :=
  let w := fresh "w" in let Hl := fresh "Hl" in
  intros w Hl;
  first [ exact Hl | apply loaded_modifyAudio; exact Hl
        | destruct Hl; split; [reflexivity | assumption]
        | destruct Hl; split; [assumption | reflexivity] ].

Lemma step_loaded e : preserves loaded (step e).
Proof. destruct e; pres no_special loaded_leaf. Qed.

(** X1.  Once the page has its shared element, every event of the page
    leaves it in place: the element is created once and no effect, cleanup
    or handler of any player removes it. *)
Theorem element_is_never_destroyed (es : list Event) (w : World) :
  loaded w -> loaded (exec (run es) w).
Proof. intros Hl. exact (pres_forM loaded es step step_loaded w Hl). Qed.

Lemma element_is_never_destroyed_witness :
  loaded initialWorld /\
  loaded (exec (run [Mount rec1; Render 0%nat (playing rec1); ManagerCleanup;
                     Unmount 0%nat]) initialWorld).
Proof.
  assert (H : loaded initialWorld) by (split; reflexivity).
  exact (conj H (element_is_never_destroyed _ initialWorld H)).
Defined.

(** ** What the events never do *)

Ltac emits_leaf :=
  let w := fresh "w" in
  let out := fresh "out" in let Ht := fresh "Ht" in let Hok := fresh "Hok" in
  intros w (out & Ht & Hok);
  first [ exists out; split; [exact Ht | exact Hok]
        | eexists (out ++ [_])%list; split;
          [ simpl; rewrite Ht; rewrite <- List.app_assoc; reflexivity
          | rewrite forallb_app, Hok; reflexivity ] ].

Lemma emits_start ok w : emits ok (trace w) w.
Proof. exists []. split; [now rewrite app_nil_r | reflexivity]. Qed.

Lemma emits_count f ok {A} (m : M A) w :
  (forall e, ok e = negb (f e)) ->
  emits ok (trace w) (exec m w) -> count f (produced m w) = 0%nat.
Proof.
  intros Hok (out & Ht & Hout). rewrite (produced_emits m w out Ht).
  apply count_none. clear Ht. induction out as [|e out IH]; [reflexivity | ].
  simpl in *. rewrite <- Hok. apply andb_prop in Hout. destruct Hout as [H1 H2].
  rewrite H1. exact (IH H2).
Qed.

Lemma pres_forM_in (I : World -> Prop) {A} (l : list A) (f : A -> M unit) :
  (forall x, In x l -> preserves I (f x)) -> preserves I (forM l f).
Proof.
  induction l as [|x l IH]; intros H; simpl.
  - apply pres_ret.
  - apply pres_bind; [ apply H; now left | intros _; apply IH ].
    intros y Hy. apply H. now right.
Qed.

(** Only the listeners of the fired kind run. *)
Lemma dispatch_by_kind (I : World -> Prop) k :
  (forall l, l_kind l = k -> preserves I (runListener l)) ->
  preserves I (dispatch k).
Proof.
  intros H. unfold dispatch. apply pres_bind; [apply pres_get | intros ls].
  apply pres_forM_in. intros l Hl. apply List.filter_In in Hl.
  destruct Hl as [_ Hk].
  apply pres_bind; [apply pres_get | intros still]. apply pres_when.
  apply H. destruct (l_kind l), k; try discriminate; reflexivity.
Qed.

Lemma step_never_plays tr0 e :
  mayPlay e = false -> preserves (emits notPlay tr0) (step e).
Proof.
  destruct e as [ | | | | |k| | | | | | | | ]; try discriminate; intros He;
    unfold step;
    lazymatch goal with
    | |- preserves _ (dispatch _) =>
        apply dispatch_by_kind; intros l Hl; unfold runListener; rewrite Hl;
        destruct k; try discriminate He; pres no_special emits_leaf
    | |- _ => pres no_special emits_leaf
    end.
Qed.

(** X2.  [audio.play()] is reached only through a mount or rerender, the
    element's [canplay] event or a timer: a seek, a mute toggle, an unmount,
    a visibility change, an animation frame, a rejected play promise, the
    coordinator's [cleanup] and the element's [error], [timeupdate],
    [ended] and [loadedmetadata] events never call it. *)
Theorem only_play_requests_call_play (e : Event) (w : World) :
  mayPlay e = false -> count isPlay (produced (step e) w) = 0%nat.
Proof.
  intros He. apply (emits_count isPlay notPlay); [ reflexivity | ].
  exact (step_never_plays (trace w) e He w (emits_start notPlay w)).
Qed.

Lemma only_play_requests_call_play_witness :
  mayPlay (Unmount 0) = false /\
  count isPlay (produced (step (Unmount 0)) playing_world) = 0%nat.
Proof.
  exact (conj eq_refl
           (only_play_requests_call_play (Unmount 0) playing_world eq_refl)).
Defined.

Lemma playPauseEffect1_idle_quiet tr0 pid pr :
  isPlaying pr = false ->
  preserves (emits notCallback tr0) (playPauseEffect1 (mkClosure pid pr)).
Proof.
  intros H. unfold playPauseEffect1. cbn [c_props]. rewrite H. cbv beta iota.
  pres no_special emits_leaf.
Qed.

Lemma playPauseEffect2_idle_quiet tr0 pid pr :
  isPlaying pr = false ->
  preserves (emits notCallback tr0) (playPauseEffect2 (mkClosure pid pr)).
Proof.
  intros H. unfold playPauseEffect2. cbn [c_props]. rewrite H. cbv beta iota.
  pres no_special emits_leaf.
Qed.

Ltac idle_special :=
  idtac; lazymatch goal with
  | |- preserves _ (playPauseEffect1 _) =>
      apply playPauseEffect1_idle_quiet; assumption
  | |- preserves _ (playPauseEffect2 _) =>
      apply playPauseEffect2_idle_quiet; assumption
  end.

Lemma step_calls_nobody tr0 e :
  asksToPlay e = false -> preserves (emits notCallback tr0) (step e).
Proof.
  destruct e; simpl; intros He; pres idle_special emits_leaf.
Qed.

(** X3.  A stored deactivation callback is called only in a mount or
    rerender that asks its player to play: no pause request, unmount, seek,
    timer, element event, animation frame, visibility change, rejected play
    promise or coordinator [cleanup] ever calls one. *)
Theorem only_play_requests_deactivate (e : Event) (w : World) :
  asksToPlay e = false -> count isCallback (produced (step e) w) = 0%nat.
Proof.
  intros He. apply (emits_count isCallback notCallback); [ reflexivity | ].
  exact (step_calls_nobody (trace w) e He w (emits_start notCallback w)).
Qed.

Lemma only_play_requests_deactivate_witness :
  asksToPlay (Render 0 rec1) = false /\
  count isCallback (produced (step (Render 0 rec1)) handoff_world) = 0%nat.
Proof.
  exact (conj eq_refl
           (only_play_requests_deactivate (Render 0 rec1) handoff_world eq_refl)).
Defined.

(** ** Visibility *)

Lemma visibility_forM hidden l : forall w,
  audioManager (exec (forM l (visibilityChangeHandler hidden)) w) = audioManager w /\
  players (exec (forM l (visibilityChangeHandler hidden)) w) = players w /\
  trace (exec (forM l (visibilityChangeHandler hidden)) w) =
    (trace w ++
     map (fun fn => EOnPlayPause (c_owner fn))
         (List.filter
            (fun fn => hidden && isPlaying (c_props fn) &&
                       String.eqb (activeSource (audioManager w)) (src (c_props fn)))
            l))%list.
Proof.
  induction l as [|fn l IH]; intros w.
  - simpl. repeat split. now rewrite app_nil_r.
  - simpl forM. rewrite exec_bind.
    set (w1 := snd (visibilityChangeHandler hidden fn w)).
    assert (H1 : audioManager w1 = audioManager w /\ players w1 = players w /\
                 trace w1 = (trace w ++
                   if hidden && isPlaying (c_props fn) &&
                      String.eqb (activeSource (audioManager w)) (src (c_props fn))
                   then [EOnPlayPause (c_owner fn)] else [])%list).
    { unfold w1. cbv [visibilityChangeHandler bind activeIs get when onPlayPause
                      emit modify ret].
      destruct hidden, (isPlaying (c_props fn)),
        (String.eqb (activeSource (audioManager w)) (src (c_props fn)));
        simpl; repeat split; now rewrite ?app_nil_r. }
    destruct H1 as (Hm & Hp & Ht). destruct (IH w1) as (Im & Ip & It).
    rewrite Im, Ip, It, Hm, Hp, Ht. repeat split.
    simpl List.filter.
    destruct (hidden && isPlaying (c_props fn) && String.eqb _ _); simpl;
      now rewrite <- List.app_assoc.
Qed.

(** X4.  A visibility change only talks to parents: when the tab becomes
    hidden, the play/pause toggle of every player that is playing and whose
    source is the active one is called, in registration order; the shared
    element is not paused and the coordinator is not touched.  When the tab
    becomes visible nothing happens. *)
Theorem visibility_change_only_signals (hidden : bool) (w : World) :
  produced (visibilityChange hidden) w =
    map (fun fn => EOnPlayPause (c_owner fn))
        (List.filter
           (fun fn => hidden && isPlaying (c_props fn) &&
                      String.eqb (activeSource (audioManager w)) (src (c_props fn)))
           (docListeners w)) /\
  audioManager (exec (visibilityChange hidden) w) = audioManager w /\
  players (exec (visibilityChange hidden) w) = players w /\
  produced (visibilityChange false) w = [].
Proof.
  assert (He : exec (visibilityChange hidden) w =
               exec (forM (docListeners w) (visibilityChangeHandler hidden)) w)
    by reflexivity.
  destruct (visibility_forM hidden (docListeners w) w) as (Hm & Hp & Ht).
  assert (Hpr : produced (visibilityChange hidden) w =
    map (fun fn => EOnPlayPause (c_owner fn))
        (List.filter
           (fun fn => hidden && isPlaying (c_props fn) &&
                      String.eqb (activeSource (audioManager w)) (src (c_props fn)))
           (docListeners w))).
  { apply produced_emits. rewrite He. exact Ht. }
  split; [exact Hpr | split; [ now rewrite He | split; [ now rewrite He | ] ] ].
  apply produced_emits.
  change (exec (visibilityChange false) w)
    with (exec (forM (docListeners w) (visibilityChangeHandler false)) w).
  rewrite (proj2 (proj2 (visibility_forM false (docListeners w) w))).
  f_equal. clear. induction (docListeners w) as [|fn l IH]; [reflexivity | exact IH].
Qed.

(** ** The coordinator's element *)

(** X5.  [getAudioElement] creates the element on first use and never
    again: on a page that is not initialized it installs a fresh element and
    returns it; on a loaded page it returns the element and changes nothing;
    [initialize] twice is [initialize] once. *)
Theorem getAudioElement_creates_once (w : World) :
  (isInitialized (audioManager w) = false ->
     fst (getAudioElement w) = true /\
     loaded (exec getAudioElement w) /\
     activeElement (audioManager (exec getAudioElement w)) = Some freshAudio) /\
  (loaded w -> getAudioElement w = (true, w)) /\
  exec initialize (exec initialize w) = exec initialize w.
Proof.
  destruct w as [[el ini as_ cb] ps ts fs prs dl t n tr rs].
  cbv [getAudioElement initialize exec bind get when modifyManager modify ret
       loaded]. simpl.
  split; [ | split ].
  - intros ->. simpl. repeat split.
  - intros [-> Hs]. simpl. destruct el; [reflexivity | discriminate].
  - destruct ini; reflexivity.
Qed.

(** X6.  [audioManager.cleanup()] on a loaded page pauses the element,
    assigns it the empty source (which then reads as the host resolves it)
    and clears both coordinator fields, without calling the stored
    deactivation callback; the players are not touched, and the next
    [setActivePlayer] calls nobody. *)
Theorem cleanup_resets_silently (w : World) :
  loaded w ->
  produced cleanup w = [EPause; ESetSrc ""] /\
  a_paused (audioOf (exec cleanup w)) = true /\
  a_src (audioOf (exec cleanup w)) = resolveUrl w "" /\
  pairOf (exec cleanup w) = ("", None) /\
  players (exec cleanup w) = players w /\
  (forall s cb, produced (setActivePlayer s cb) (exec cleanup w) = []).
Proof.
  intros [Hi Hs].
  assert (H : produced cleanup w = [EPause; ESetSrc ""] /\
              a_paused (audioOf (exec cleanup w)) = true /\
              a_src (audioOf (exec cleanup w)) = resolveUrl w "" /\
              pairOf (exec cleanup w) = ("", None) /\
              players (exec cleanup w) = players w).
  { destruct w as [[el ini as_ cb] ps ts fs prs dl t n tr rs]. simpl in *.
    destruct el as [a|]; [ | discriminate ].
    cbv [cleanup exec produced bind get when audio_pause audio_set_src emit
         modify modifyAudio modifyManager isSome]. simpl.
    rewrite <- List.app_assoc, drop_app_length. repeat split. }
  destruct H as (H1 & H2 & H3 & H4 & H5).
  repeat split; try assumption.
  intros s cb. apply produced_emits. rewrite setActivePlayer_trace.
  unfold pairOf in H4. injection H4 as _ H4. now rewrite H4.
Qed.

Lemma getAudioElement_creates_once_witness :
  (isInitialized (audioManager emptyWorld) = false /\ loaded initialWorld) /\
  fst (getAudioElement emptyWorld) = true /\
  getAudioElement initialWorld = (true, initialWorld).
Proof.
  assert (H0 : isInitialized (audioManager emptyWorld) = false) by reflexivity.
  assert (H1 : loaded initialWorld) by (split; reflexivity).
  exact (conj (conj H0 H1)
           (conj (proj1 (proj1 (getAudioElement_creates_once emptyWorld) H0))
                 (proj1 (proj2 (getAudioElement_creates_once initialWorld)) H1))).
Defined.

Lemma cleanup_resets_silently_witness :
  loaded playing_world /\
  produced cleanup playing_world = [EPause; ESetSrc ""] /\
  pairOf (exec cleanup playing_world) = ("", None).
Proof.
  assert (H : loaded playing_world) by (split; vm_compute; reflexivity).
  destruct (cleanup_resets_silently playing_world H) as (H1 & _ & _ & H4 & _).
  exact (conj H (conj H1 H4)).
Defined.

(** ** Source swaps *)

(** X7.  When the element has no source, or one that does not contain the
    requested one, and the player is not inside the 100ms guard of an earlier
    swap, [updateAudioSource] pauses the element, clears and reloads it and
    loads the new source; the element ends paused at position 0 with the new
    source as the host resolves it, the player's swap flag and guard are set, a timer to lift the
    guard is due 100ms later, and the coordinator is not touched.  Until that
    timer fires every further [updateAudioSource] of the same player, for
    whatever source, does nothing. *)
Theorem updateAudioSource_swaps_and_guards (w : World) (pid : nat) (newSrc : string) :
  loaded w ->
  (pid < length (players w))%nat ->
  isUpdatingSourceRef (playerOf pid w) = false ->
  negb (truthy (a_src (audioOf w))) || negb (includes newSrc (a_src (audioOf w))) = true ->
  let w' := exec (updateAudioSource pid newSrc) w in
  produced (updateAudioSource pid newSrc) w =
    [EPause; ESetSrc ""; ELoad; ESetSrc newSrc; ELoad] /\
  (a_src (audioOf w') = resolveUrl w newSrc /\ a_paused (audioOf w') = true /\
   a_currentTime (audioOf w') = 0) /\
  (sourceChangedRef (playerOf pid w') = true /\
   isUpdatingSourceRef (playerOf pid w') = true) /\
  timers w' = (timers w ++ [mkTimer (nextId w) (now w + 100) (ResetUpdating pid)])%list /\
  pairOf w' = pairOf w /\
  (forall s, updateAudioSource pid s w' = (tt, w')).
Proof.
  intros [Hi Hs] Hlt Hup Hneed w'.
  assert (Hlt' := Hlt). apply Nat.ltb_lt in Hlt'.
  destruct w as [[el ini as_ cb] ps ts fs prs dl t n tr rs]. simpl in *. subst ini.
  destruct el as [a|]; [ | discriminate ].
  unfold audioOf, playerOf in Hup, Hneed. simpl in Hup, Hneed.
  assert (Hw' : w' =
    mkWorld
      (mkManager
         (Some (set_a_paused true (set_a_currentTime 0
            (set_a_src (rs newSrc) (set_a_paused true (set_a_currentTime 0
               (set_a_src (rs "") (set_a_paused true a))))))))
         true as_ cb)
      (alter (set_sourceChangedRef true) pid
         (alter (set_isUpdatingSourceRef true) pid ps))
      (ts ++ [mkTimer n (t + 100) (ResetUpdating pid)])%list fs prs dl t (S n)
      (tr ++ [EPause; ESetSrc ""; ELoad; ESetSrc newSrc; ELoad])%list rs).
  { unfold w'.
    cbv [updateAudioSource exec bind getAudioElement get when initialize ret
         readRef readAudio modifyPlayer modify audio_pause audio_set_src
         audio_load emit modifyAudio modifyManager setTimeout fresh].
    simpl. unfold playerOf, audioOf. simpl. rewrite Hup. simpl.
    rewrite Hneed. simpl. rewrite <- !List.app_assoc. reflexivity. }
  assert (Hflag : isUpdatingSourceRef (playerOf pid w') = true).
  { rewrite Hw'. unfold playerOf. simpl.
    rewrite !lookup_alter_player, Nat.eqb_refl, ?length_alter, Hlt'. reflexivity. }
  split; [ | split; [ | split; [ | split; [ | split ] ] ] ].
  - unfold produced. fold w'. rewrite Hw'. simpl. apply drop_app_length.
  - rewrite Hw'. repeat split.
  - split; [ | exact Hflag ].
    rewrite Hw'. unfold playerOf. simpl.
    rewrite !lookup_alter_player, Nat.eqb_refl, ?length_alter, Hlt'. reflexivity.
  - rewrite Hw'. reflexivity.
  - rewrite Hw'. reflexivity.
  - intros s. revert Hflag. rewrite Hw'. intros Hflag.
    cbv [updateAudioSource bind getAudioElement get when initialize ret readRef].
    simpl. rewrite Hflag. reflexivity.
Qed.

Lemma updateAudioSource_swaps_and_guards_witness :
  let w := exec (run [Mount rec1]) initialWorld in
  let w' := exec (updateAudioSource 0 "rec1") w in
  (loaded w /\ (0 < length (players w))%nat /\
   isUpdatingSourceRef (playerOf 0 w) = false /\
   negb (truthy (a_src (audioOf w))) || negb (includes "rec1" (a_src (audioOf w))) = true) /\
  produced (updateAudioSource 0 "rec1") w =
    [EPause; ESetSrc ""; ELoad; ESetSrc "rec1"; ELoad] /\
  updateAudioSource 0 "rec2" w' = (tt, w').
Proof.
  intros w w'.
  assert (H0 : loaded w) by (split; vm_compute; reflexivity).
  assert (H1 : (0 < length (players w))%nat) by (vm_compute; lia).
  assert (H2 : isUpdatingSourceRef (playerOf 0 w) = false)
    by (vm_compute; reflexivity).
  assert (H3 : negb (truthy (a_src (audioOf w))) ||
               negb (includes "rec1" (a_src (audioOf w))) = true)
    by (vm_compute; reflexivity).
  destruct (updateAudioSource_swaps_and_guards w 0 "rec1" H0 H1 H2 H3)
    as (Ha & _ & _ & _ & _ & Hb).
  exact (conj (conj H0 (conj H1 (conj H2 H3))) (conj Ha (Hb "rec2"))).
Defined.

(** An element that already has a source containing the requested one is
    left alone. *)
Lemma updateAudioSource_loaded_noop (w : World) (pid : nat) (newSrc : string) :
  loaded w ->
  truthy (a_src (audioOf w)) = true ->
  includes newSrc (a_src (audioOf w)) = true ->
  updateAudioSource pid newSrc w = (tt, w).
Proof.
  intros [Hi Hs] Ht Hinc.
  destruct w as [[el ini as_ cb] ps ts fs prs dl t n tr rs]. simpl in *. subst ini.
  destruct el as [a|]; [ | discriminate ].
  unfold audioOf in Ht, Hinc. simpl in Ht, Hinc.
  cbv [updateAudioSource bind getAudioElement get when initialize ret readRef
       readAudio]. simpl.
  destruct (isUpdatingSourceRef _); [reflexivity | ].
  unfold audioOf. simpl. rewrite Ht, Hinc. reflexivity.
Qed.

(** ** Mute *)

(** X8.  The mute button of a mounted player flips that player's own
    [isMuted] and writes it to the shared element ([muted], and [volume] 0
    when muted, the player's volume otherwise); the [isMuted] state of every
    other player stays what it was, so the element follows the player that
    toggled last. *)
Theorem toggleMute_last_writer_wins (w : World) (pid : nat) :
  loaded w ->
  (pid < length (players w))%nat ->
  mounted (playerOf pid w) = true ->
  let w' := exec (toggleMute pid) w in
  a_muted (audioOf w') = negb (isMuted (playerOf pid w)) /\
  a_volume (audioOf w') =
    (if isMuted (playerOf pid w) then volume (playerOf pid w) else 0) /\
  isMuted (playerOf pid w') = negb (isMuted (playerOf pid w)) /\
  (forall q, q <> pid -> isMuted (playerOf q w') = isMuted (playerOf q w)) /\
  produced (toggleMute pid) w = [].
Proof.
  intros [Hi Hs] Hlt Hm w'. apply Nat.ltb_lt in Hlt.
  destruct w as [[el ini as_ cb] ps ts fs prs dl t n tr rs].
  change (ini = true) in Hi. change (isSome el = true) in Hs.
  change ((pid <? length ps)%nat = true) in Hlt. subst ini.
  destruct el as [a|]; [ | discriminate ].
  set (p0 := default defaultPlayer (ps !! pid)).
  assert (Hw' : w' =
    mkWorld
      (mkManager
         (Some (set_a_volume (if negb (isMuted p0) then 0 else volume p0)
                             (negb (isMuted p0)) a))
         true as_ cb)
      (alter (set_isMuted (negb (isMuted p0))) pid ps)
      ts fs prs dl t n tr rs).
  { unfold w'.
    cbv [toggleMute exec bind get when modifyPlayer modify volumeEffect
         getAudioElement initialize ret readRef modifyAudio modifyManager].
    rewrite Hm. simpl. unfold playerOf. simpl.
    rewrite !lookup_alter_player, Nat.eqb_refl, Hlt. simpl. reflexivity. }
  unfold produced. fold w'. rewrite Hw'. unfold audioOf, playerOf. simpl.
  rewrite lookup_alter_player, Nat.eqb_refl, Hlt. simpl. fold p0.
  split; [reflexivity | ]. split.
  { destruct (isMuted p0); reflexivity. }
  split; [reflexivity | ]. split; [ | apply drop_all ].
  intros q Hq. rewrite lookup_alter_player.
  apply not_eq_sym in Hq. apply Nat.eqb_neq in Hq. now rewrite Hq.
Qed.

Lemma toggleMute_last_writer_wins_witness :
  let w' := exec (toggleMute 1) handoff_world in
  (loaded handoff_world /\ (1 < length (players handoff_world))%nat /\
   mounted (playerOf 1 handoff_world) = true) /\
  a_muted (audioOf w') = true /\
  isMuted (playerOf 0 w') = false.
Proof.
  intros w'.
  assert (H0 : loaded handoff_world) by (split; vm_compute; reflexivity).
  assert (H1 : (1 < length (players handoff_world))%nat) by (vm_compute; lia).
  assert (H2 : mounted (playerOf 1 handoff_world) = true)
    by (vm_compute; reflexivity).
  destruct (toggleMute_last_writer_wins handoff_world 1 H0 H1 H2)
    as (Ha & _ & _ & Hb & _).
  assert (Hq : (0 <> 1)%nat) by discriminate.
  exact (conj (conj H0 (conj H1 H2)) (conj Ha (Hb 0%nat Hq))).
Defined.

(** ** Pause requests that find nothing to do *)

Lemma noop_preserves (I : World -> Prop) (m : M unit) :
  (forall w, I w -> m w = (tt, w)) -> preserves I m.
Proof. intros H w Hw. now rewrite (H w Hw). Qed.

Lemma getAudioElement_noop w : loaded w -> getAudioElement w = (true, w).
Proof.
  intros [Hi Hs]. cbv [getAudioElement bind get when initialize ret].
  rewrite Hi. simpl. now rewrite Hs.
Qed.

Lemma sourceEffect_idle fn w :
  isPlaying (c_props fn) = false ->
  sourceChangedRef (playerOf (c_owner fn) w) = false ->
  sourceEffect fn w = (tt, w).
Proof.
  intros Hp Hc. cbv [sourceEffect bind activeIs get readRef when ret].
  now rewrite Hp, Hc.
Qed.

Lemma initialTimeEffect_idle fn w :
  loaded w -> isPlaying (c_props fn) = false -> initialTimeEffect fn w = (tt, w).
Proof.
  intros Hl Hp. unfold initialTimeEffect, bind.
  rewrite (getAudioElement_noop w Hl). cbv [readAudio get when ret].
  now rewrite Hp, andb_false_r.
Qed.

Lemma playPauseEffect_inactive fn w :
  loaded w ->
  isPlaying (c_props fn) = false ->
  activeSource (audioManager w) <> src (c_props fn) ->
  playPauseEffect1 fn w = (tt, w) /\ playPauseEffect2 fn w = (tt, w).
Proof.
  intros Hl Hp Hne. unfold playPauseEffect1, playPauseEffect2, bind.
  rewrite (getAudioElement_noop w Hl). cbn [negb]. rewrite Hp.
  split; apply pauseBranch_inactive; exact Hne.
Qed.

Lemma playPauseCleanup2_inactive fn w :
  activeSource (audioManager w) <> src (c_props fn) ->
  playPauseCleanup2 fn w = (tt, w).
Proof.
  intros Hne. apply String.eqb_neq in Hne.
  cbv [playPauseCleanup2 bind activeIs get when ret].
  now rewrite Hne, andb_false_r.
Qed.

Ltac undisturbed_leaf :=
  let w := fresh "w" in
  let Hl := fresh "Hl" in let Hs := fresh "Hs" in let Hc := fresh "Hc" in
  intros w (Hl & Hs & Hc);
  split; [ exact Hl | split; [ exact Hs | ] ];
  first [ exact Hc
        | unfold playerOf in *; simpl; rewrite lookup_alter_player;
          destruct (_ && _); simpl; exact Hc ].

(** X9.  A pause request of a mounted player that is not the active source
    and has no source swap of its own pending disturbs nothing shared: the
    coordinator, the element, the pending timers, frames and promises are
    what they were and nothing is called. *)
Theorem pause_of_settled_inactive_player_is_noop (w : World) (pid : nat) (pr : Props) :
  loaded w ->
  mounted (playerOf pid w) = true ->
  isPlaying (props (playerOf pid w)) = true ->
  isPlaying pr = false ->
  src pr = src (props (playerOf pid w)) ->
  sourceChangedRef (playerOf pid w) = false ->
  activeSource (audioManager w) <> src pr ->
  sharedOf (exec (render pid pr) w) = sharedOf w /\
  produced (render pid pr) w = [].
Proof.
  intros Hl Hm Hold Hnew Hsrc Hch Hne.
  assert (H : undisturbed (sharedOf w) pid (exec (render pid pr) w)).
  { unfold exec, render. unfold bind at 1. unfold get at 1.
    rewrite Hm, <- Hsrc, String.eqb_refl, Hold, Hnew.
    cbn [negb Bool.eqb orb when].
    apply hoare_run with (P := undisturbed (sharedOf w) pid)
                         (Q := fun _ => undisturbed (sharedOf w) pid).
    { split; [ exact Hl | split; [ reflexivity | exact Hch ] ]. }
    assert (Hact : forall w', undisturbed (sharedOf w) pid w' ->
                     activeSource (audioManager w') <> src pr).
    { intros w' (_ & Hs & _). unfold sharedOf in Hs.
      injection Hs as Hs _ _ _ _. now rewrite Hs. }
    keep; [ apply pres_ret | ].
    keep; [ apply noop_preserves; intros w' Hw';
            apply playPauseCleanup2_inactive; cbn [c_props];
            rewrite <- Hsrc; exact (Hact w' Hw') | ].
    keep; [ pres no_special undisturbed_leaf | ].
    keep; [ pres no_special undisturbed_leaf | ].
    keep; [ apply noop_preserves; intros w' Hw';
            apply sourceEffect_idle; [ exact Hnew | exact (proj2 (proj2 Hw')) ] | ].
    keep; [ apply noop_preserves; intros w' Hw';
            apply playPauseEffect_inactive;
            [ exact (proj1 Hw') | exact Hnew | exact (Hact w' Hw') ] | ].
    keep; [ apply pres_when; apply noop_preserves; intros w' Hw';
            apply initialTimeEffect_idle; [ exact (proj1 Hw') | exact Hnew ] | ].
    keep; [ pres no_special undisturbed_leaf | ].
    keep; [ apply noop_preserves; intros w' Hw';
            apply playPauseEffect_inactive;
            [ exact (proj1 Hw') | exact Hnew | exact (Hact w' Hw') ] | ].
    change (preserves (undisturbed (sharedOf w) pid)
              (visibilityEffect (mkClosure pid pr))).
    pres no_special undisturbed_leaf. }
  destruct H as (_ & Hs & _). split; [exact Hs | ].
  apply produced_emits. unfold sharedOf in Hs. injection Hs as _ _ _ _ Ht.
  now rewrite Ht, app_nil_r.
Qed.

Lemma pause_of_settled_inactive_player_is_noop_witness :
  (loaded takeover_world /\
   mounted (playerOf 0 takeover_world) = true /\
   isPlaying (props (playerOf 0 takeover_world)) = true /\
   isPlaying rec1 = false /\
   src rec1 = src (props (playerOf 0 takeover_world)) /\
   sourceChangedRef (playerOf 0 takeover_world) = false /\
   activeSource (audioManager takeover_world) <> src rec1) /\
  sharedOf (exec (render 0 rec1) takeover_world) = sharedOf takeover_world.
Proof.
  assert (H0 : loaded takeover_world) by (split; vm_compute; reflexivity).
  assert (H1 : mounted (playerOf 0 takeover_world) = true)
    by (vm_compute; reflexivity).
  assert (H2 : isPlaying (props (playerOf 0 takeover_world)) = true)
    by (vm_compute; reflexivity).
  assert (H3 : isPlaying rec1 = false) by reflexivity.
  assert (H4 : src rec1 = src (props (playerOf 0 takeover_world)))
    by (vm_compute; reflexivity).
  assert (H5 : sourceChangedRef (playerOf 0 takeover_world) = false)
    by (vm_compute; reflexivity).
  assert (H6 : activeSource (audioManager takeover_world) <> src rec1)
    by (vm_compute; discriminate).
  exact (conj (conj H0 (conj H1 (conj H2 (conj H3 (conj H4 (conj H5 H6))))))
           (proj1 (pause_of_settled_inactive_player_is_noop takeover_world 0 rec1
                     H0 H1 H2 H3 H4 H5 H6))).
Defined.

(** ** The pause request of the active player *)



Ltac released_leaf :=
  let w := fresh "w" in
  let Hl := fresh "Hl" in let Hp := fresh "Hp" in let Hpair := fresh "Hpair" in
  let out := fresh "out" in let Ht := fresh "Ht" in let Hok := fresh "Hok" in
  intros w ((Hl & Hp & Hpair) & out & Ht & Hok);
  split;
  [ destruct w as [[[?|] ? ? ?] ? ? ? ? ? ? ? ? ?];
    [ | destruct Hl; discriminate ];
    unfold released, loaded, pairOf, audioOf in *; simpl in *;
    destruct Hl; injection Hpair as -> ->;
    repeat split; first [ assumption | reflexivity ]
  | first [ exists out; split; [exact Ht | exact Hok]
          | eexists (out ++ [_])%list; split;
            [ simpl; rewrite Ht; rewrite <- List.app_assoc; reflexivity
            | rewrite forallb_app, Hok; reflexivity ] ] ].

(** The pause branch, entered by the player whose source is active and
    loaded. *)
Lemma pauseBranch_active fn recheck tr0 :
  hoare (fun w => (loaded w /\
                   truthy (a_src (audioOf w)) &&
                     includes (src (c_props fn)) (a_src (audioOf w)) = true /\
                   activeSource (audioManager w) = src (c_props fn)) /\
                  emits silent tr0 w)
        (pauseBranch fn recheck)
        (fun _ w => released w /\ emits silent tr0 w).
Proof.
  intros w ((Hl & Hinc & Hact) & out & Ht & Hok).
  destruct w as [[[a|] ini as_ cb] ps ts fs prs dl t n tr rs];
    [ | destruct Hl; discriminate ].
  unfold audioOf in Hinc. simpl in Hinc, Hact, Ht. destruct Hl as [Hi _].
  simpl in Hi. subst ini as_.
  cbv [pauseBranch bind readAudio get activeIs when audio_pause emit modify
       modifyAudio modifyManager stopSliderUpdates readRef
       cancelAnimationFrame modifyPlayer clearActive ret].
  unfold audioOf. simpl. rewrite String.eqb_refl, Hinc. simpl.
  destruct (animationRef _) as [[|id]|]; simpl;
    destruct recheck; simpl; rewrite ?String.eqb_refl; simpl;
    (split; [ repeat split
            | first [ exists (out ++ [EPause])%list; split;
                      [ simpl; rewrite Ht, <- List.app_assoc; reflexivity
                      | rewrite forallb_app, Hok; reflexivity ]
                    | exists (out ++ [EPause; ECancelFrame (S id)])%list; split;
                      [ simpl; rewrite Ht, <- !List.app_assoc; reflexivity
                      | rewrite forallb_app, Hok; reflexivity ] ] ]).
Qed.

Lemma counts_of_silent l :
  forallb silent l = true ->
  count isCallback l = 0%nat /\ count isOnPlayPause l = 0%nat /\
  count isPlay l = 0%nat.
Proof.
  unfold count. induction l as [|e l IH]; simpl; [repeat split | ].
  unfold silent at 1.
  destruct (isCallback e), (isOnPlayPause e), (isPlay e); simpl;
    try discriminate. exact IH.
Qed.

Lemma noop_preserves_any (I : World -> Prop) {A} (m : M A) :
  (forall w, I w -> exists a, m w = (a, w)) -> preserves I m.
Proof. intros H w Hw. destruct (H w Hw) as [a Ha]. now rewrite Ha. Qed.



(** ** Mounting an idle player *)

Lemma viewOf_modifyAudio f w :
  (forall a, a_src (f a) = a_src a /\ a_paused (f a) = a_paused a) ->
  viewOf (set_audioManager
            (set_activeElement (f <$> activeElement (audioManager w))
                               (audioManager w)) w) = viewOf w.
Proof.
  intros Hf. unfold viewOf, pairOf, audioOf. simpl.
  destruct (activeElement (audioManager w)) as [a|]; simpl; [ | reflexivity ].
  destruct (Hf a) as [-> ->]. reflexivity.
Qed.

Lemma cellsOf_alter f pid q w :
  (forall p, cellsOf (f p) = cellsOf p) ->
  cellsOf (playerOf pid (set_players (alter f q (players w)) w)) =
  cellsOf (playerOf pid w).
Proof.
  intros Hf. rewrite playerOf_modify. destruct (_ && _); [apply Hf | reflexivity].
Qed.

Ltac mounting_core Hl Hv Hc out Ht Hok :=
  cbv beta;
  split; [ first [ exact Hl | apply loaded_modifyAudio; exact Hl ] | ];
  split; [ first [ exact Hv
                 | rewrite viewOf_modifyAudio by (intros; split; reflexivity);
                   exact Hv ] | ];
  split; [ first [ exact Hc
                 | rewrite cellsOf_alter by (intros; reflexivity); exact Hc ] | ];
  first [ exists out; split; [exact Ht | exact Hok]
        | eexists (out ++ [_])%list; split;
          [ simpl; rewrite Ht; rewrite <- List.app_assoc; reflexivity
          | rewrite forallb_app, Hok; reflexivity ] ].

Ltac mounting_leaf :=
  let w := fresh "w" in
  let Hl := fresh "Hl" in let Hv := fresh "Hv" in let Hc := fresh "Hc" in
  let out := fresh "out" in let Ht := fresh "Ht" in let Hok := fresh "Hok" in
  intros w (Hl & Hv & Hc & out & Ht & Hok);
  mounting_core Hl Hv Hc out Ht Hok.

Ltac unmuted_leaf :=
  let w := fresh "w" in
  let Hl := fresh "Hl" in let Hv := fresh "Hv" in let Hc := fresh "Hc" in
  let out := fresh "out" in let Ht := fresh "Ht" in let Hok := fresh "Hok" in
  let Hmu := fresh "Hmu" in
  intros w ((Hl & Hv & Hc & out & Ht & Hok) & Hmu);
  split; [ mounting_core Hl Hv Hc out Ht Hok | exact Hmu ].

Ltac mounting_special :=
  idtac;
  lazymatch goal with
  | |- preserves _ getAudioElement =>
      apply noop_preserves_any;
      let w := fresh "w" in let H := fresh "H" in
      intros w H; eexists; apply getAudioElement_noop; exact (proj1 H)
  | |- preserves _ (when false _) => apply pres_ret
  end.

Lemma setupEffect_idle_mounting view ok pid tr0 pr :
  isPlaying pr = false ->
  preserves (mounting view ok pid tr0) (setupEffect (mkClosure pid pr)).
Proof.
  intros Hp. unfold setupEffect. cbn [c_props c_owner]. rewrite Hp.
  cbn [andb]. pres mounting_special mounting_leaf.
Qed.

Lemma volumeEffect_mounting view ok pid tr0 :
  hoare (mounting view ok pid tr0) (volumeEffect pid)
        (fun _ w => mounting view ok pid tr0 w /\
                    a_muted (audioOf w) = false /\ a_volume (audioOf w) = 1).
Proof.
  intros w (Hl & Hv & Hc & Hem).
  unfold volumeEffect, bind. rewrite (getAudioElement_noop w Hl).
  cbv [when readRef get bind modifyAudio modifyManager modify].
  unfold cellsOf in Hc. injection Hc as Hc1 Hc2 Hc3. rewrite Hc2, Hc3. simpl.
  split.
  - split; [ apply loaded_modifyAudio; exact Hl | ].
    split; [ rewrite viewOf_modifyAudio by (intros; split; reflexivity); exact Hv | ].
    split; [ unfold cellsOf, playerOf in *; simpl; now rewrite Hc1, Hc2, Hc3
           | exact Hem ].
  - destruct Hl as [_ Hs]. unfold audioOf. simpl.
    destruct (activeElement (audioManager w)); [ split; reflexivity | discriminate ].
Qed.

Lemma mount_unfold pr w :
  mount pr w =
  (let pid := length (players w) in
   let fn := mkClosure pid pr in
   (setupEffect fn ;;
    sourceEffect fn ;;
    playPauseEffect1 fn ;;
    volumeEffect pid ;;
    initialTimeEffect fn ;;
    durationEffect fn ;;
    playPauseEffect2 fn ;;
    visibilityEffect fn ;;
    ret pid)%M
     (set_players (players w ++ [newPlayer pr (now w)]) w)).
Proof. reflexivity. Qed.

Lemma mounting_start ok pr w :
  loaded w ->
  mounting (viewOf w) ok (length (players w)) (trace w)
           (set_players (players w ++ [newPlayer pr (now w)]) w).
Proof.
  intros Hl. split; [ exact Hl | split; [ reflexivity | split ] ].
  - unfold playerOf. simpl.
    rewrite (list_lookup_middle (players w) [] (newPlayer pr (now w))
               (length (players w)) eq_refl).
    reflexivity.
  - exists []. split; [ simpl; now rewrite app_nil_r | reflexivity ].
Qed.

(** X11.  Mounting a player that is not asked to play, for a source other
    than the active one, calls nobody and starts nothing: the active pair, the
    element's source and its paused flag are what they were.  It does write
    the new player's initial mute state to the shared element, which ends
    unmuted at volume 1 whatever another player had set.  The new player gets
    the next free index. *)
Theorem mount_of_idle_player_only_unmutes (w : World) (pr : Props) :
  loaded w ->
  isPlaying pr = false ->
  activeSource (audioManager w) <> src pr ->
  let w' := exec (mount pr) w in
  fst (mount pr w) = length (players w) /\
  produced (mount pr) w = [] /\
  viewOf w' = viewOf w /\
  a_muted (audioOf w') = false /\ a_volume (audioOf w') = 1.
Proof.
  intros Hl Hp Hne w'. subst w'. unfold produced, exec. rewrite mount_unfold.
  cbv zeta.
  set (pid := length (players w)).
  set (w1 := set_players (players w ++ [newPlayer pr (now w)]) w).
  set (I := mounting (viewOf w) nothing pid (trace w)).
  set (I2 := fun w' => I w' /\
                       (a_muted (audioOf w') = false /\ a_volume (audioOf w') = 1)).
  match goal with |- context [fst (?m w1)] => set (prog := m) end.
  assert (H : fst (prog w1) = pid /\ I2 (snd (prog w1))).
  { apply hoare_run with (P := I) (Q := fun a w' => a = pid /\ I2 w').
    { apply mounting_start, Hl. }
    subst prog.
    assert (Hact : forall w', I w' -> activeSource (audioManager w') <> src pr).
    { intros w' (_ & Hv & _). unfold viewOf, pairOf in Hv.
      injection Hv as Hv _ _ _. now rewrite Hv. }
    keep; [ apply setupEffect_idle_mounting, Hp | ].
    keep; [ apply noop_preserves; intros w' (_ & _ & Hc & _);
            apply sourceEffect_idle; [ exact Hp | ];
            unfold cellsOf in Hc; now injection Hc | ].
    keep; [ apply noop_preserves; intros w' Hw';
            apply playPauseEffect_inactive;
            [ exact (proj1 Hw') | exact Hp | exact (Hact w' Hw') ] | ].
    apply hoare_bind with (Q := fun _ => I2);
      [ apply volumeEffect_mounting | intros _ ].
    keep; [ apply noop_preserves; intros w' Hw';
            apply initialTimeEffect_idle;
            [ exact (proj1 (proj1 Hw')) | exact Hp ] | ].
    keep; [ pres no_special unmuted_leaf | ].
    keep; [ apply noop_preserves; intros w' Hw';
            apply playPauseEffect_inactive;
            [ exact (proj1 (proj1 Hw')) | exact Hp | exact (Hact w' (proj1 Hw')) ] | ].
    keep; [ pres no_special unmuted_leaf | ].
    intros w' Hw'. split; [ reflexivity | exact Hw' ]. }
  destruct H as (Hid & (_ & Hv & _ & out & Ht & Hok) & Hmu & Hvo).
  split; [ exact Hid | ].
  split; [ | split; [ exact Hv | split; [ exact Hmu | exact Hvo ] ] ].
  destruct out as [|e out]; [ | discriminate ].
  change (trace w1) with (trace w) in *.
  rewrite Ht, app_nil_r. apply drop_all.
Qed.

Lemma mount_of_idle_player_only_unmutes_witness :
  let w := exec (toggleMute 0) playing_world in
  (loaded w /\ isPlaying rec2 = false /\
   activeSource (audioManager w) <> src rec2) /\
  a_muted (audioOf w) = true /\
  a_muted (audioOf (exec (mount rec2) w)) = false.
Proof.
  intros w.
  assert (H0 : loaded w) by (split; vm_compute; reflexivity).
  assert (H1 : isPlaying rec2 = false) by reflexivity.
  assert (H2 : activeSource (audioManager w) <> src rec2)
    by (vm_compute; discriminate).
  assert (H3 : a_muted (audioOf w) = true) by (vm_compute; reflexivity).
  destruct (mount_of_idle_player_only_unmutes w rec2 H0 H1 H2)
    as (_ & _ & _ & Hm & _).
  exact (conj (conj H0 (conj H1 H2)) (conj H3 Hm)).
Defined.

Ltac released_special :=
  idtac;
  lazymatch goal with
  | |- preserves _ getAudioElement =>
      apply noop_preserves_any;
      let w := fresh "w" in let H := fresh "H" in
      intros w H; eexists; apply getAudioElement_noop; exact (proj1 (proj1 H))
  end.

(** X12.  Mounting a player that is not asked to play, for the source that
    is active and loaded in the element, stops the playback of whoever is
    playing it: the element ends paused and both coordinator fields are
    cleared, without the deactivation callback or any parent being called and
    without anything being played. *)
Theorem mount_of_idle_player_on_active_source_releases (w : World) (pr : Props) :
  loaded w ->
  isPlaying pr = false ->
  activeSource (audioManager w) = src pr ->
  truthy (a_src (audioOf w)) && includes (src pr) (a_src (audioOf w)) = true ->
  released (exec (mount pr) w) /\
  count isCallback (produced (mount pr) w) = 0%nat /\
  count isOnPlayPause (produced (mount pr) w) = 0%nat /\
  count isPlay (produced (mount pr) w) = 0%nat.
Proof.
  intros Hl Hp Hact Hinc. unfold produced, exec. rewrite mount_unfold.
  cbv zeta.
  set (pid := length (players w)).
  set (w1 := set_players (players w ++ [newPlayer pr (now w)]) w).
  set (I := mounting (viewOf w) silent pid (trace w)).
  set (Q := fun w' => released w' /\ emits silent (trace w) w').
  match goal with |- context [snd (?m w1)] => set (prog := m) end.
  assert (H : Q (snd (prog w1))).
  { apply hoare_run with (P := I) (Q := fun _ => Q).
    { apply mounting_start, Hl. }
    subst prog.
    keep; [ apply setupEffect_idle_mounting, Hp | ].
    keep; [ apply noop_preserves; intros w' (_ & _ & Hc & _);
            apply sourceEffect_idle; [ exact Hp | ];
            unfold cellsOf in Hc; now injection Hc | ].
    apply hoare_bind with (Q := fun _ => Q).
    - unfold playPauseEffect1.
      apply hoare_bind with (Q := fun au w' => au = true /\ I w').
      { intros w' Hw'. rewrite (getAudioElement_noop w' (proj1 Hw')).
        split; [ reflexivity | exact Hw' ]. }
      intros au. apply hoare_pure. intros ->. cbn [negb c_props]. rewrite Hp.
      eapply hoare_weaken;
        [ apply (pauseBranch_active (mkClosure pid pr) true (trace w))
        | | intros u w' Hq; exact Hq ].
      intros w' (Hl' & Hv & _ & Hem).
      split; [ | exact Hem ]. split; [ exact Hl' | ].
      unfold viewOf, pairOf in Hv. injection Hv as Hv1 _ Hv2 _.
      cbn [c_props]. rewrite Hv1, Hv2. split; [ exact Hinc | exact Hact ].
    - intros u.
      keep; [ pres released_special released_leaf | ].
      keep; [ apply noop_preserves; intros w' Hw';
              apply initialTimeEffect_idle;
              [ exact (proj1 (proj1 Hw')) | exact Hp ] | ].
      keep; [ pres no_special released_leaf | ].
      keep.
      + unfold playPauseEffect2.
        apply pres_bind;
          [ apply noop_preserves_any; intros w' Hw'; exists true;
            exact (getAudioElement_noop w' (proj1 (proj1 Hw'))) | intros au ].
        cbn [c_props]. rewrite Hp. destruct (negb au); [ apply pres_ret | ].
        pres no_special released_leaf.
      + keep; [ pres no_special released_leaf | ].
        intros w' Hw'. exact Hw'. }
  destruct H as [Hr (out & Ht & Hok)].
  split; [ exact Hr | ].
  change (trace w1) with (trace w) in *.
  assert (Hpr : drop (length (trace w)) (trace (snd (prog w1))) = out)
    by (rewrite Ht; apply drop_app_length).
  rewrite Hpr. apply counts_of_silent, Hok.
Qed.

Lemma mount_of_idle_player_on_active_source_releases_witness :
  (loaded playing_world /\ isPlaying rec1 = false /\
   activeSource (audioManager playing_world) = src rec1 /\
   truthy (a_src (audioOf playing_world)) &&
     includes (src rec1) (a_src (audioOf playing_world)) = true) /\
  a_paused (audioOf playing_world) = false /\
  released (exec (mount rec1) playing_world).
Proof.
  assert (H0 : loaded playing_world) by (split; vm_compute; reflexivity).
  assert (H1 : isPlaying rec1 = false) by reflexivity.
  assert (H2 : activeSource (audioManager playing_world) = src rec1)
    by (vm_compute; reflexivity).
  assert (H3 : truthy (a_src (audioOf playing_world)) &&
               includes (src rec1) (a_src (audioOf playing_world)) = true)
    by (vm_compute; reflexivity).
  assert (H4 : a_paused (audioOf playing_world) = false)
    by (vm_compute; reflexivity).
  exact (conj (conj H0 (conj H1 (conj H2 H3)))
           (conj H4
              (proj1 (mount_of_idle_player_on_active_source_releases
                        playing_world rec1 H0 H1 H2 H3)))).
Defined.

(** ** Listeners and rerenders *)

Lemma setupListeners_modifyAudio f w :
  (forall a, List.filter isSetupListener (a_listeners (f a)) =
             List.filter isSetupListener (a_listeners a)) ->
  setupListeners (set_audioManager
                    (set_activeElement (f <$> activeElement (audioManager w))
                                       (audioManager w)) w) = setupListeners w.
Proof.
  intros Hf. unfold setupListeners, audioOf. simpl.
  destruct (activeElement (audioManager w)) as [a|]; simpl; [ apply Hf | reflexivity ].
Qed.

Ltac listening_leaf :=
  let w := fresh "w" in let Hl := fresh "Hl" in let HL := fresh "HL" in
  intros w (Hl & HL); cbv beta;
  split;
  [ first [ exact Hl | apply loaded_modifyAudio; exact Hl ]
  | first [ exact HL
          | rewrite setupListeners_modifyAudio;
            [ exact HL
            | intros; simpl; rewrite ?List.filter_app; simpl;
              rewrite ?app_nil_r; reflexivity ] ] ].

Ltac listening_special :=
  idtac;
  lazymatch goal with
  | |- preserves _ getAudioElement =>
      apply noop_preserves_any;
      let w := fresh "w" in let H := fresh "H" in
      intros w H; eexists; apply getAudioElement_noop; exact (proj1 H)
  end.

Lemma render_listening L pid pr : preserves (listening L) (render pid pr).
Proof. pres listening_special listening_leaf. Qed.

(** X13.  A rerender never registers or removes one of the element's
    error, timeupdate, ended or loadedmetadata listeners: whatever the new
    props are, the listeners are the ones registered at mount, with the props
    they closed over then. *)
Theorem render_keeps_mount_listeners (w : World) (pid : nat) (pr : Props) :
  loaded w ->
  setupListeners (exec (render pid pr) w) = setupListeners w.
Proof.
  intros Hl.
  exact (proj2 (render_listening (setupListeners w) pid pr w (conj Hl eq_refl))).
Qed.

Lemma render_keeps_mount_listeners_witness :
  loaded playing_world /\
  map (fun l => src (c_props (l_fn l)))
      (setupListeners (exec (render 0 (playing rec2)) playing_world)) =
    ["rec1"; "rec1"; "rec1"; "rec1"].
Proof.
  assert (H0 : loaded playing_world) by (split; vm_compute; reflexivity).
  assert (H1 : map (fun l => src (c_props (l_fn l))) (setupListeners playing_world) =
               ["rec1"; "rec1"; "rec1"; "rec1"]) by (vm_compute; reflexivity).
  exact (conj H0
           (eq_trans
              (f_equal (map (fun l => src (c_props (l_fn l))))
                 (render_keeps_mount_listeners playing_world 0 (playing rec2) H0))
              H1)).
Defined.

(** ** Slider updates *)

Lemma updateSlider_paused fn w :
  a_paused (audioOf w) = true -> updateSlider fn w = (tt, w).
Proof.
  intros Hp. cbv [updateSlider bind readRef readAudio get when ret].
  now rewrite Hp, andb_false_r.
Qed.

Lemma forM_noop {A} (I : World -> Prop) (l : list A) (f : A -> M unit) w :
  (forall x w', I w' -> f x w' = (tt, w')) -> I w -> forM l f w = (tt, w).
Proof.
  intros Hf Hw. induction l as [|x l IH]; simpl; [ reflexivity | ].
  unfold bind. rewrite (Hf x w Hw). exact IH.
Qed.

(** X14.  While the shared element is paused, an animation frame ends
    every slider loop: each pending [updateSlider] runs, finds the element
    paused and does not reschedule itself, so no frame is pending afterwards;
    no player's time is changed and no parent is called. *)
Theorem animation_frame_on_paused_element_stops_loops (w : World) :
  a_paused (audioOf w) = true ->
  exec animationFrame w = set_frames [] w.
Proof.
  intros Hp. unfold exec, animationFrame, bind at 1 2, get, modify. cbn [fst snd].
  rewrite (forM_noop (fun w' => a_paused (audioOf w') = true)); [ reflexivity | | exact Hp ].
  intros f w' Hw'. apply updateSlider_paused, Hw'.
Qed.

Lemma animation_frame_on_paused_element_stops_loops_witness :
  a_paused (audioOf loading_world) = true /\
  length (frames loading_world) = 1%nat /\
  frames (exec animationFrame loading_world) = [].
Proof.
  assert (H0 : a_paused (audioOf loading_world) = true) by (vm_compute; reflexivity).
  assert (H1 : length (frames loading_world) = 1%nat) by (vm_compute; reflexivity).
  exact (conj H0 (conj H1
           (f_equal frames
              (animation_frame_on_paused_element_stops_loops loading_world H0)))).
Defined.

(** ** The listeners of a player, from mount to unmount *)

Lemma field_alter {A} (g : Player -> A) f pid q w :
  (forall p, g (f p) = g p) ->
  g (playerOf pid (set_players (alter f q (players w)) w)) = g (playerOf pid w).
Proof.
  intros Hf. rewrite playerOf_modify. destruct (_ && _); [apply Hf | reflexivity].
Qed.

Ltac registering_core Hl HL HD Hlt Hm Hc :=
  cbv beta;
  split;
  [ split;
    [ first [ exact Hl | apply loaded_modifyAudio; exact Hl ]
    | first [ exact HL
            | rewrite setupListeners_modifyAudio;
              [ exact HL
              | intros; simpl; rewrite ?List.filter_app; simpl;
                rewrite ?app_nil_r; reflexivity ] ] ]
  | split; [ exact HD | ];
    split; [ first [ exact Hlt | simpl; rewrite length_alter; exact Hlt ] | ];
    split;
    [ first [ exact Hm
            | rewrite (field_alter mounted) by (intros; reflexivity); exact Hm ]
    | first [ exact Hc
            | rewrite (field_alter newCleanup) by (intros; reflexivity); exact Hc ] ] ].

Ltac registering_leaf :=
  let w := fresh "w" in
  let Hl := fresh "Hl" in let HL := fresh "HL" in let HD := fresh "HD" in
  let Hlt := fresh "Hlt" in let Hm := fresh "Hm" in let Hc := fresh "Hc" in
  intros w ((Hl & HL) & HD & Hlt & Hm & Hc);
  registering_core Hl HL HD Hlt Hm Hc.

Ltac registering_special :=
  idtac;
  lazymatch goal with
  | |- preserves _ getAudioElement =>
      apply noop_preserves_any;
      let w := fresh "w" in let H := fresh "H" in
      intros w H; eexists; apply getAudioElement_noop; exact (proj1 (proj1 H))
  end.

Lemma setupAudioListeners_spec fn w :
  loaded w ->
  fst (setupAudioListeners fn w) = fourIds (nextId w) /\
  setupListeners (snd (setupAudioListeners fn w)) =
    (setupListeners w ++ fourListeners (nextId w) fn)%list /\
  loaded (snd (setupAudioListeners fn w)) /\
  players (snd (setupAudioListeners fn w)) = players w /\
  docListeners (snd (setupAudioListeners fn w)) = docListeners w.
Proof.
  intros [Hi Hs].
  destruct w as [[[a|] ini as_ cb] ps ts fs prs dl t n tr rs]; [ | discriminate ].
  cbv [setupAudioListeners addEventListener bind fresh modifyAudio modifyManager
       modify ret]. simpl.
  split; [ reflexivity | ]. split; [ | repeat split; exact Hi ].
  unfold setupListeners, audioOf. simpl.
  rewrite <- !List.app_assoc, List.filter_app. reflexivity.
Qed.

(** X15.  Mounting a player, whatever its props, registers exactly four
    listeners on the shared element, for error, timeupdate, ended and
    loadedmetadata in this order, all closed over the props of the mount, and
    one visibility listener on the document; the player remembers the ids of
    the four for its cleanup. *)
Theorem mount_registers_four_listeners (w : World) (pr : Props) :
  loaded w ->
  let pid := length (players w) in
  let fn := mkClosure pid pr in
  let w' := exec (mount pr) w in
  setupListeners w' = (setupListeners w ++ fourListeners (nextId w) fn)%list /\
  docListeners w' = (docListeners w ++ [fn])%list /\
  mounted (playerOf pid w') = true /\
  newCleanup (playerOf pid w') = Some (fourIds (nextId w)).
Proof.
  intros Hl pid fn w'. subst w'. unfold exec. rewrite mount_unfold. cbv zeta.
  fold pid. fold fn.
  set (w1 := set_players (players w ++ [newPlayer pr (now w)]) w).
  set (L0 := setupListeners w). set (D0 := docListeners w). set (n := nextId w).
  set (L1 := (L0 ++ fourListeners n fn)%list).
  pose (P0 := fun w' => registering L0 D0 pid None w' /\ nextId w' = n /\
                        listenerInitializedRef (playerOf pid w') = false).
  assert (Hnew : playerOf pid w1 = newPlayer pr (now w)).
  { unfold playerOf, w1. simpl.
    now rewrite (list_lookup_middle (players w) [] _ pid eq_refl). }
  match goal with |- context [snd (?m w1)] => set (prog := m) end.
  assert (H : registering L1 (D0 ++ [fn])%list pid (Some (fourIds n)) (snd (prog w1))).
  { apply hoare_run with (P := P0)
      (Q := fun _ => registering L1 (D0 ++ [fn])%list pid (Some (fourIds n))).
    { subst P0. cbv beta. unfold registering, listening. rewrite Hnew.
      split; [ | split; reflexivity ].
      split; [ split; [ exact Hl | reflexivity ] | ].
      split; [ reflexivity | ].
      split; [ unfold w1; simpl; rewrite length_app; simpl; lia | ].
      split; reflexivity. }
    subst prog.
    apply hoare_bind with (Q := fun _ => registering L1 D0 pid (Some (fourIds n))).
    - unfold setupEffect. cbn [c_owner c_props fn].
      apply hoare_bind with (Q := fun au w' => au = true /\ P0 w').
      { intros w' Hw'.
        rewrite (getAudioElement_noop w' (proj1 (proj1 (proj1 Hw')))).
        split; [ reflexivity | exact Hw' ]. }
      intros au. apply hoare_pure. intros ->. cbn [negb].
      apply hoare_bind with (Q := fun _ => P0).
      { intros w' (((Hl' & HL) & HD & Hlt & Hm & Hc) & Hn & Hi).
        unfold P0, modifyPlayer, modify. cbn [fst snd].
        split; [ registering_core Hl' HL HD Hlt Hm Hc | ].
        split; [ exact Hn | ].
        cbv beta. rewrite (field_alter listenerInitializedRef) by (intros; reflexivity).
        exact Hi. }
      intros _.
      apply hoare_bind with (Q := fun ini w' => ini = false /\ P0 w').
      { intros w' Hw'. split; [ exact (proj2 (proj2 Hw')) | exact Hw' ]. }
      intros ini. apply hoare_pure. intros ->. cbn [negb when].
      apply hoare_bind with
        (Q := fun ids w' => ids = fourIds n /\ registering L1 D0 pid None w').
      { intros w' (((Hl' & HL) & HD & Hlt & Hm & Hc) & Hn & Hi).
        destruct (setupAudioListeners_spec fn w' Hl')
          as (Hids & HL' & Hl'' & Hps & Hdl).
        rewrite Hn in Hids, HL'. rewrite HL in HL'.
        cbv beta. split; [ exact Hids | ]. unfold registering, listening.
        split; [ split; [ exact Hl'' | exact HL' ] | ].
        split; [ now rewrite Hdl | ].
        unfold playerOf in *. rewrite Hps. repeat split; assumption. }
      intros ids. apply hoare_pure. intros ->.
      keep; [ pres registering_special registering_leaf | ].
      keep; [ pres registering_special registering_leaf | ].
      keep; [ pres registering_special registering_leaf | ].
      intros w' ((Hl' & HL) & HD & Hlt & Hm & Hc).
      unfold registering, listening, modifyPlayer, modify. cbn [fst snd].
      split; [ split; [ exact Hl' | exact HL ] | ].
      split; [ exact HD | ].
      split; [ simpl; rewrite length_alter; exact Hlt | ].
      rewrite playerOf_modify, Nat.eqb_refl, (proj2 (Nat.ltb_lt _ _) Hlt).
      split; [ exact Hm | reflexivity ].
    - intros _.
      keep; [ pres registering_special registering_leaf | ].
      keep; [ pres registering_special registering_leaf | ].
      keep; [ pres registering_special registering_leaf | ].
      keep; [ pres registering_special registering_leaf | ].
      keep; [ pres registering_special registering_leaf | ].
      keep; [ pres registering_special registering_leaf | ].
      intros w' ((Hl' & HL) & HD & Hlt & Hm & Hc).
      unfold registering, listening.
      cbv [bind visibilityEffect modify ret]. cbn [fst snd].
      split; [ split; [ exact Hl' | exact HL ] | ].
      split; [ simpl; now rewrite HD | ].
      split; [ exact Hlt | split; [ exact Hm | exact Hc ] ]. }
  destruct H as ((_ & HL) & HD & _ & Hm & Hc).
  split; [ exact HL | split; [ exact HD | split; [ exact Hm | exact Hc ] ] ].
Qed.

Lemma mount_registers_four_listeners_witness :
  let w' := exec (mount (playing rec2)) playing_world in
  loaded playing_world /\
  map l_kind (setupListeners w') =
    [LError; LTimeUpdate; LEnded; LLoadedMetadata;
     LError; LTimeUpdate; LEnded; LLoadedMetadata] /\
  mounted (playerOf 1 w') = true.
Proof.
  intros w'.
  assert (H0 : loaded playing_world) by (split; vm_compute; reflexivity).
  destruct (mount_registers_four_listeners playing_world (playing rec2) H0)
    as (Ha & _ & Hb & _).
  assert (H1 : map l_kind (setupListeners playing_world) =
               [LError; LTimeUpdate; LEnded; LLoadedMetadata])
    by (vm_compute; reflexivity).
  assert (H2 : length (players playing_world) = 1%nat) by (vm_compute; reflexivity).
  rewrite H2 in Hb.
  exact (conj H0
           (conj (eq_trans (f_equal (map l_kind) Ha)
                    (eq_trans (map_app l_kind _ _) (f_equal (fun l => l ++ _)%list H1)))
                 Hb)).
Defined.

Lemma a_listeners_modifyAudio f w :
  (forall a, a_listeners (f a) = a_listeners a) ->
  a_listeners (audioOf (set_audioManager
                  (set_activeElement (f <$> activeElement (audioManager w))
                                     (audioManager w)) w)) =
  a_listeners (audioOf w).
Proof.
  intros Hf. unfold audioOf. simpl.
  destruct (activeElement (audioManager w)) as [a|]; simpl; [ apply Hf | reflexivity ].
Qed.

Ltac unregistering_core Hl HL HD Hlt Hc :=
  cbv beta;
  split; [ first [ exact Hl | apply loaded_modifyAudio; exact Hl ] | ];
  split; [ first [ exact HL
                 | rewrite a_listeners_modifyAudio by (intros; reflexivity);
                   exact HL ] | ];
  split; [ exact HD | ];
  split; [ first [ exact Hlt | simpl; rewrite length_alter; exact Hlt ] | ];
  first [ exact Hc
        | rewrite (field_alter newCleanup) by (intros; reflexivity); exact Hc ].

Ltac unregistering_leaf :=
  let w := fresh "w" in
  let Hl := fresh "Hl" in let HL := fresh "HL" in let HD := fresh "HD" in
  let Hlt := fresh "Hlt" in let Hc := fresh "Hc" in
  intros w (Hl & HL & HD & Hlt & Hc);
  unregistering_core Hl HL HD Hlt Hc.

Ltac unregistering_special :=
  idtac;
  lazymatch goal with
  | |- preserves _ getAudioElement =>
      apply noop_preserves_any;
      let w := fresh "w" in let H := fresh "H" in
      intros w H; eexists; apply getAudioElement_noop; exact (proj1 H)
  end.

Lemma filter_keptBy_cons i ids (L : list Listener) :
  List.filter (keptBy ids)
    (List.filter (fun l => negb (Nat.eqb (l_id l) i)) L) =
  List.filter (keptBy (i :: ids)) L.
Proof.
  induction L as [|l L IH]; [ reflexivity | ].
  unfold keptBy in *. simpl.
  destruct (Nat.eqb_spec (l_id l) i) as [->|Hne]; simpl.
  - exact IH.
  - destruct (existsb _ ids); simpl; [ exact IH | now rewrite IH ].
Qed.

Lemma removeEventListeners_spec D pid c ids : forall L,
  hoare (unregistering L D pid c) (forM ids removeEventListener)
        (fun _ => unregistering (List.filter (keptBy ids) L) D pid c).
Proof.
  induction ids as [|i ids IH]; intros L.
  - intros w H. simpl.
    assert (HL : List.filter (keptBy []) L = L).
    { clear. induction L as [|l L IH]; [ reflexivity | simpl; now rewrite IH ]. }
    rewrite HL. exact H.
  - simpl forM.
    apply hoare_bind with
      (Q := fun _ => unregistering (List.filter (fun l => negb (Nat.eqb (l_id l) i)) L)
                                   D pid c).
    + intros w (Hl & HL & HD & Hlt & Hc).
      split; [ apply loaded_modifyAudio; exact Hl | ].
      split; [ | split; [ exact HD | split; [ exact Hlt | exact Hc ] ] ].
      destruct Hl as [_ Hs]. unfold audioOf in *.
      cbv [removeEventListener modifyAudio modifyManager modify]. simpl.
      destruct (activeElement (audioManager w)) as [a|]; [ | discriminate ].
      simpl in *. now rewrite HL.
    + intros _. rewrite <- filter_keptBy_cons. apply IH.
Qed.

(** X16.  Unmounting a mounted player removes from the shared element the
    listeners whose ids its setup effect remembered, and nothing else: any
    other listener, a pending canplay handler of the same player included,
    stays registered.  The player's visibility listeners are removed from the
    document and the player is no longer mounted. *)
Theorem unmount_removes_remembered_listeners (w : World) (pid : nat) (ids : list nat) :
  loaded w ->
  mounted (playerOf pid w) = true ->
  newCleanup (playerOf pid w) = Some ids ->
  let w' := exec (unmount pid) w in
  a_listeners (audioOf w') = List.filter (keptBy ids) (a_listeners (audioOf w)) /\
  docListeners w' =
    List.filter (fun g => negb (Nat.eqb (c_owner g) pid)) (docListeners w) /\
  mounted (playerOf pid w') = false.
Proof.
  intros Hl Hm Hc w'. subst w'.
  assert (Hlt : (pid < length (players w))%nat).
  { destruct (Nat.lt_ge_cases pid (length (players w))) as [H|H]; [ exact H | ].
    unfold playerOf in Hm. rewrite (lookup_ge_None_2 _ _ H) in Hm. discriminate. }
  set (L0 := a_listeners (audioOf w)). set (D0 := docListeners w).
  set (L1 := List.filter (keptBy ids) L0).
  set (D1 := List.filter (fun g => negb (Nat.eqb (c_owner g) pid)) D0).
  pose (Q := fun w' => unregistering L1 D1 pid (Some ids) w' /\
                       mounted (playerOf pid w') = false).
  assert (H : Q (exec (unmount pid) w)).
  { unfold exec, unmount. unfold bind at 1. unfold get at 1. cbn [fst snd].
    rewrite Hm. cbn [when].
    apply hoare_run with (P := unregistering L0 D0 pid (Some ids))
      (Q := fun _ => Q).
    { split; [ exact Hl | ]. split; [ reflexivity | ]. split; [ reflexivity | ].
      split; [ exact Hlt | exact Hc ]. }
    subst Q. cbv beta.
    keep; [ pres unregistering_special unregistering_leaf | ].
    apply hoare_bind with (Q := fun _ => unregistering L1 D0 pid (Some ids)).
    { unfold setupCleanup. cbn [c_owner c_props].
      apply hoare_bind with
        (Q := fun r w' => r = Some ids /\ unregistering L0 D0 pid (Some ids) w').
      { intros w' Hw'. split; [ exact (proj2 (proj2 (proj2 (proj2 Hw')))) | exact Hw' ]. }
      intros r. apply hoare_pure. intros ->.
      apply hoare_bind with (Q := fun _ => unregistering L1 D0 pid (Some ids));
        [ apply removeEventListeners_spec | intros _ ].
      match goal with |- hoare ?P ?m _ => change (preserves P m) end.
      pres unregistering_special unregistering_leaf. }
    intros _.
    keep; [ pres unregistering_special unregistering_leaf | ].
    keep; [ pres unregistering_special unregistering_leaf | ].
    apply hoare_bind with (Q := fun _ => unregistering L1 D1 pid (Some ids)).
    { intros w' (Hl' & HL & HD & Hlt' & Hc').
      unfold unregistering. cbv [visibilityCleanup modify]. cbn [fst snd c_owner].
      split; [ exact Hl' | split; [ exact HL | ] ].
      split; [ simpl; now rewrite HD | split; [ exact Hlt' | exact Hc' ] ]. }
    intros _.
    keep; [ pres unregistering_special unregistering_leaf | ].
    intros w' (Hl' & HL & HD & Hlt' & Hc').
    unfold modifyPlayer, modify. cbn [fst snd].
    split.
    - unregistering_core Hl' HL HD Hlt' Hc'.
    - rewrite playerOf_modify, Nat.eqb_refl, (proj2 (Nat.ltb_lt _ _) Hlt').
      reflexivity. }
  destruct H as ((_ & HL & HD & _) & Hmo).
  split; [ exact HL | split; [ exact HD | exact Hmo ] ].
Qed.

Lemma unmount_removes_remembered_listeners_witness :
  let w := exec (run [Render 1%nat (playing rec2)]) handoff_world in
  let w' := exec (unmount 1) w in
  (loaded w /\ mounted (playerOf 1 w) = true /\
   newCleanup (playerOf 1 w) = Some (fourIds 5)) /\
  map l_kind (a_listeners (audioOf w)) =
    [LError; LTimeUpdate; LEnded; LLoadedMetadata;
     LError; LTimeUpdate; LEnded; LLoadedMetadata; LCanPlay; LCanPlay] /\
  a_listeners (audioOf w') = List.filter (keptBy (fourIds 5)) (a_listeners (audioOf w)) /\
  mounted (playerOf 1 w') = false.
Proof.
  intros w w'.
  assert (H0 : loaded w) by (split; vm_compute; reflexivity).
  assert (H1 : mounted (playerOf 1 w) = true) by (vm_compute; reflexivity).
  assert (H2 : newCleanup (playerOf 1 w) = Some (fourIds 5))
    by (vm_compute; reflexivity).
  assert (H3 : map l_kind (a_listeners (audioOf w)) =
               [LError; LTimeUpdate; LEnded; LLoadedMetadata;
                LError; LTimeUpdate; LEnded; LLoadedMetadata; LCanPlay; LCanPlay])
    by (vm_compute; reflexivity).
  destruct (unmount_removes_remembered_listeners w 1 (fourIds 5) H0 H1 H2)
    as (Ha & _ & Hb).
  exact (conj (conj H0 (conj H1 H2)) (conj H3 (conj Ha Hb))).
Defined.
